(** * Toledo Atomchess (C port): move generator, search and move execution

    A shallow embedding of [toledo_atomchess.c] / [toledo_atomchess.h]:
    the 0x88 board, the recursive routine [play] that enumerates moves,
    searches and validates, [make_move], [computer_move], one iteration of
    the loop of [run_game], and the utilities around them (initialisation,
    square access, coordinates and their text, the random byte).

    Conventions.
    - [unsigned char] and [int] values are integers of [Z].  A cell is only
      ever given a value masked with [PIECE_FULL_MASK], a value read from the
      array, or a constant; scores are sums of a handful of entries of
      [piece_scores] and of [MIN_SCORE], and squares stay within a few
      displacements of the board.  No value computed there leaves the range
      of its C type ([play_scores_are_bounded] bounds the scores), so no
      wrap-around is written on these operations; it is written where it
      takes place, on the seed of [get_random_byte] and on the characters of
      [position_to_algebraic].  [stack_depth] is compared and raised by 2 in
      [Z]: this is the C arithmetic as long as [depth_limit] is below
      [INT_MAX], and the callers set it to 4 or 6; with
      [depth_limit = INT_MAX] line 410 would overflow where the model counts
      on.
    - [board] is the 128-cell array, a [list Z] read with [cell] and written
      with [set_cell].  [play] indexes it behind its own bounds checks;
      [make_move] does not check, and its model has no result when an index
      falls outside the array.
    - [play] writes its score through a pointer and returns an [int]; the
      model returns the final state, the score and the returned [int].
    - The unbounded [for(;;)] of a ray and the recursion of [play] are driven
      by fuel; [ray_fuel_enough] and [play_value] show that the fuel given is
      always enough. *)

From Stdlib Require Import ZArith List Lia Bool.
From stdpp Require Import base list.
Import ListNotations.
Open Scope Z_scope.

(** ** Constants of [toledo_atomchess.h] *)

Definition BOARD_SIZE : Z := 128.
Definition FRONTIER : Z := 0x07.
Definition EMPTY : Z := 0x00.

Definition PIECE_MASK : Z := 0x07.
Definition COLOR_MASK : Z := 0x08.
Definition MOVED_MASK : Z := 0x10.
Definition PIECE_FULL_MASK : Z := 0x0F.

Definition PAWN : Z := 1.
Definition ROOK : Z := 2.
Definition BISHOP : Z := 3.
Definition QUEEN : Z := 4.
Definition KNIGHT : Z := 5.
Definition KING : Z := 6.

Definition BLACK : Z := 0x00.
Definition WHITE : Z := 0x08.

Definition MAX_DEPTH_PLY1 : Z := 4.
Definition MAX_DEPTH_PLY0 : Z := 6.

Definition MIN_SCORE : Z := -32768.
Definition KING_CAPTURE_SCORE : Z := 78.
Definition MAX_CHECKMATE_SCORE : Z := KING_CAPTURE_SCORE * 2.
Definition ILLEGAL_MOVE_SCORE : Z := -127.

(** ** Tables of [toledo_atomchess.c] *)

Definition piece_scores : list Z := [0; 1; 5; 3; 9; 3; 0].

Definition initial_position : list Z :=
  [0x12; 0x15; 0x13; 0x14; 0x16; 0x13; 0x15; 0x12].

Definition displacement : list Z :=
  [ -33; -31; -18; -14; 14; 18; 31; 33;
    -16; 16; -1; 1;
    15; 17; -15; -17;
    -17; -15; -16; -32;
    15; 17; 16; 32 ].

Definition offsets : list Z := [0; 16; 8; 12; 8; 0; 8].

(** [tbl[i]] for a constant table. *)
Definition entry (tbl : list Z) (i : Z) : Z := nth (Z.to_nat i) tbl 0.

(** ** Game state *)

Record ChessState : Type := mkState {
  board : list Z;
  depth_limit : Z;
  enp : Z;
  temp_score : Z;
  legal_move_check : Z;
  stack_depth : Z;
  best_from : Z;
  best_to : Z;
  rand_seed : Z
}.

Definition set_board (st : ChessState) (b : list Z) : ChessState :=
  mkState b (depth_limit st) (enp st) (temp_score st) (legal_move_check st)
          (stack_depth st) (best_from st) (best_to st) (rand_seed st).

Definition set_depth_limit (st : ChessState) (v : Z) : ChessState :=
  mkState (board st) v (enp st) (temp_score st) (legal_move_check st)
          (stack_depth st) (best_from st) (best_to st) (rand_seed st).

Definition set_enp (st : ChessState) (v : Z) : ChessState :=
  mkState (board st) (depth_limit st) v (temp_score st) (legal_move_check st)
          (stack_depth st) (best_from st) (best_to st) (rand_seed st).

Definition set_legal_move_check (st : ChessState) (v : Z) : ChessState :=
  mkState (board st) (depth_limit st) (enp st) (temp_score st) v
          (stack_depth st) (best_from st) (best_to st) (rand_seed st).

Definition set_stack_depth (st : ChessState) (v : Z) : ChessState :=
  mkState (board st) (depth_limit st) (enp st) (temp_score st) (legal_move_check st)
          v (best_from st) (best_to st) (rand_seed st).

Definition set_best (st : ChessState) (f t : Z) : ChessState :=
  mkState (board st) (depth_limit st) (enp st) (temp_score st) (legal_move_check st)
          (stack_depth st) f t (rand_seed st).

(** ** Board access *)

(** [b[i]], for an index inside the array. *)
Definition cell (b : list Z) (i : Z) : Z := default 0 (b !! Z.to_nat i).

(** [b[i] = v], for an index inside the array. *)
Definition set_cell (b : list Z) (i v : Z) : list Z := <[Z.to_nat i := v]> b.

Definition is_valid_square (pos : Z) : bool := Z.land pos 0x88 =? 0.

Definition get_piece_type (piece : Z) : Z := Z.land piece PIECE_MASK.

Definition get_piece_color (piece : Z) : Z := Z.land piece COLOR_MASK.

(** ** Initialisation: [create_board], [setup_board], [init_chess] *)

Definition create_board_cells : list Z :=
  map (fun i => if Z.land i 0x88 =? 0 then EMPTY else FRONTIER)
      (map Z.of_nat (seq 0 128)).

Definition place_file (b : list Z) (i : Z) : list Z :=
  let piece := entry initial_position i in
  let b := set_cell b i piece in
  let b := set_cell b (i + 0x70) (Z.lor piece 0x08) in
  let b := set_cell b ((i + 1) + 0x0F) 0x11 in
  set_cell b ((i + 1) + 0x5F) 0x19.

Definition setup_board_cells (b : list Z) : list Z :=
  fold_left place_file (map Z.of_nat (seq 0 8)) b.

Definition init_chess (st : ChessState) : ChessState :=
  set_board (set_enp st 0) (setup_board_cells create_board_cells).

(** The state [main] hands to [init_chess]: all zero (the seed is read by
    [get_random_byte] only, which no other function calls). *)
Definition zero_state : ChessState :=
  mkState (repeat 0 128%nat) 0 0 0 0 0 0 0 0.

Definition initial_state : ChessState := init_chess zero_state.

(** ** The search routine [play] *)

(** How an iteration of a loop of [play] ends: the function returns (with the
    score written through [best_score] and the returned [int]), or the loop
    goes on with the current best score [bp]. *)
Inductive flow : Type :=
| Return (st : ChessState) (best_score : Z) (rv : Z)
| Next (st : ChessState) (bp : Z).

(** [for (i = i0; i < i0 + n; i++) body], left by a [return] in [body]. *)
Fixpoint for_range (n : nat) (i : Z)
    (body : Z -> ChessState -> Z -> option flow)
    (st : ChessState) (bp : Z) : option flow :=
  match n with
  | O => Some (Next st bp)
  | S n' =>
      match body i st bp with
      | Some (Next st' bp') => for_range n' (i + 1) body st' bp'
      | r => r
      end
  end.

(** Lines 287-319: movement offset, movement count and sliding flag of the
    piece on the origin square; [None] when the square is skipped. *)
Definition movement (current_color piece_at_origin : Z) : option (Z * Z * bool) :=
  let piece_type := Z.land (Z.lxor piece_at_origin current_color) PIECE_FULL_MASK in
  let piece_idx := piece_type - 1 in
  if (piece_idx <? 0) || (6 <=? piece_idx) then None
  else if piece_idx =? 0 then
    let movement_count := 4 in
    let movement_offset := if current_color =? BLACK then 16 else 20 in
    let piece_idx := 4 in
    Some (movement_offset, movement_count, (6 <=? piece_idx) && (piece_idx <=? 8))
  else
    let piece_idx := piece_idx + 1 in
    let piece_idx := piece_idx + 4 in
    let movement_count := Z.land piece_idx 0x0C in
    let movement_offset := entry offsets (piece_idx - 4) in
    Some (movement_offset, movement_count, (6 <=? piece_idx) && (piece_idx <=? 8)).

(** Lines 328-331: the next square of the ray. *)
Definition next_square (movement_offset move_dir di : Z) : Z :=
  let disp_idx := movement_offset + move_dir in
  let disp_idx := if 24 <=? disp_idx then 16 else disp_idx in
  di + entry displacement disp_idx.

(** Line 334: the bounds check. *)
Definition off_board (di : Z) : bool :=
  negb (Z.land di 0x88 =? 0) || (di <? 0) || (BOARD_SIZE <=? di).

(** Lines 338-369: whether the iteration reaches the label [valid_move]
    ([true]) or leaves the ray with [break] ([false]). *)
Definition reaches_valid_move
    (b : list Z) (enp current_color movement_offset movement_count di : Z) : bool :=
  let target_piece := cell b di in
  let target_type := Z.land target_piece PIECE_FULL_MASK in
  if target_type =? EMPTY then
    if (16 <=? movement_offset) && (movement_count <? 3) then true
    else if 16 <=? movement_offset then di =? enp
    else true
  else
    let target_color := Z.land target_piece COLOR_MASK in
    negb (target_color =? current_color) && (Z.land target_type PIECE_MASK <? 7).

(** Lines 379-382: the score written on a king capture. *)
Definition king_capture_score (st : ChessState) : Z :=
  if stack_depth st >? MAX_DEPTH_PLY1 then MAX_CHECKMATE_SCORE else KING_CAPTURE_SCORE.

(** Line 388: validating a move at the root. *)
Definition validating (st : ChessState) : bool :=
  negb (legal_move_check st =? 0) && (stack_depth st =? 0).

(** Lines 420-429: keep the move when it beats the best so far. *)
Definition keep_best (st : ChessState) (bp move_score si di : Z) : ChessState * Z :=
  if move_score >? bp then
    (if stack_depth st =? 0 then set_best st si di else st, move_score)
  else (st, bp).

(** The number of iterations a ray is given; see [ray_fuel_enough]. *)
Definition ray_fuel : nat := 8.

Section Engine.

(** The store to a board cell, and the recursive call of [play]. *)
Variable store : list Z -> Z -> Z -> list Z.
Variable rec : ChessState -> Z -> Z -> Z -> option (ChessState * Z * Z).

Variables origin_hint target_hint current_color : Z.

(** Lines 398-418: make the move, search the reply, unmake the move.
    Returns the state and [move_score]. *)
Definition explore (st : ChessState) (si di piece_at_origin captured_type : Z)
    : option (ChessState * Z) :=
  let saved_target_piece := cell (board st) di in
  let saved_origin_piece := cell (board st) si in
  let st := set_board st (store (board st) di (Z.land piece_at_origin PIECE_FULL_MASK)) in
  let st := set_board st (store (board st) si EMPTY) in
  let move_score := entry piece_scores captured_type in
  let searched :=
    if stack_depth st <? depth_limit st then
      let st := set_stack_depth st (stack_depth st + 2) in
      match rec st (-1) (-1) (Z.lxor current_color COLOR_MASK) with
      | None => None
      | Some (st, sub_score, _) =>
          let st := set_stack_depth st (stack_depth st - 2) in
          Some (st, move_score - sub_score)
      end
    else Some (st, move_score) in
  match searched with
  | None => None
  | Some (st, move_score) =>
      let st := set_board st (store (board st) si saved_origin_piece) in
      let st := set_board st (store (board st) di saved_target_piece) in
      Some (st, move_score)
  end.

(** Lines 326-436: the [for(;;)] loop along one direction, entered with
    [di] on the square the ray has reached. *)
Fixpoint ray (fuel : nat) (piece_at_origin si movement_offset movement_count : Z)
    (is_sliding_piece : bool) (move_dir : Z)
    (st : ChessState) (bp di : Z) : option flow :=
  match fuel with
  | O => None
  | S fuel' =>
      let di := next_square movement_offset move_dir di in
      if off_board di then Some (Next st bp)
      else
        let target_piece := cell (board st) di in
        let target_type := Z.land target_piece PIECE_FULL_MASK in
        if negb (reaches_valid_move (board st) (enp st) current_color
                   movement_offset movement_count di)
        then Some (Next st bp)
        else
          let captured_type := get_piece_type target_piece in
          if captured_type =? KING then
            Some (Return st (king_capture_score st) 1)
          else if validating st then
            if (si =? origin_hint) && (di =? target_hint) then Some (Return st 0 0)
            else ray fuel' piece_at_origin si movement_offset movement_count
                     is_sliding_piece move_dir st bp di
          else
            match explore st si di piece_at_origin captured_type with
            | None => None
            | Some (st, move_score) =>
                let '(st, bp) := keep_best st bp move_score si di in
                if negb is_sliding_piece || negb (target_type =? EMPTY)
                then Some (Next st bp)
                else ray fuel' piece_at_origin si movement_offset movement_count
                         is_sliding_piece move_dir st bp di
            end
  end.

(** Lines 322-437: every direction of the piece on [si]. *)
Definition directions (piece_at_origin si movement_offset movement_count : Z)
    (is_sliding_piece : bool) (st : ChessState) (bp : Z) : option flow :=
  for_range (Z.to_nat movement_count) 0
    (fun move_dir st bp =>
       ray ray_fuel piece_at_origin si movement_offset movement_count
           is_sliding_piece move_dir st bp si)
    st bp.

(** Lines 282-437: one iteration of the loop over the squares. *)
Definition square (si : Z) (st : ChessState) (bp : Z) : option flow :=
  if negb (Z.land si 0x88 =? 0) then Some (Next st bp)
  else
    let piece_at_origin := cell (board st) si in
    match movement current_color piece_at_origin with
    | None => Some (Next st bp)
    | Some (movement_offset, movement_count, is_sliding_piece) =>
        directions piece_at_origin si movement_offset movement_count
                   is_sliding_piece st bp
    end.

(** Lines 276-449: the body of [play]. *)
Definition play_body (st : ChessState) : option (ChessState * Z * Z) :=
  let bp := MIN_SCORE in
  let saved_enp := enp st in
  match for_range 120 0 square st bp with
  | None => None
  | Some (Return st best_score rv) => Some (st, best_score, rv)
  | Some (Next st bp) =>
      let best_score := if validating st then ILLEGAL_MOVE_SCORE else bp in
      Some (set_enp st saved_enp, best_score, 0)
  end.

End Engine.

(** [play], with [fuel] levels of recursion. *)
Fixpoint play_rec (fuel : nat) (st : ChessState)
    (origin_hint target_hint current_color : Z) : option (ChessState * Z * Z) :=
  match fuel with
  | O => None
  | S fuel' =>
      play_body set_cell (play_rec fuel') origin_hint target_hint current_color st
  end.

(** The levels of recursion [play] can need from [st]: one, and one more for
    every two units of [stack_depth] below [depth_limit]. *)
Definition levels (st : ChessState) : nat :=
  S (Z.to_nat ((depth_limit st - stack_depth st + 1) / 2)).

Definition play (st : ChessState) (origin_hint target_hint current_color : Z)
    : option (ChessState * Z * Z) :=
  play_rec (levels st) st origin_hint target_hint current_color.

(** Lines 453-455: the context of a validation. *)
Definition validate_config (st : ChessState) : ChessState :=
  let st := set_legal_move_check st 1 in
  let st := set_depth_limit st MAX_DEPTH_PLY1 in
  set_stack_depth st 0.

(** Lines 452-462. *)
Definition play_validate (st : ChessState) (origin target current_color : Z)
    : option (ChessState * Z) :=
  let st := validate_config st in
  match play st origin target current_color with
  | None => None
  | Some (st, score, _) => Some (st, score)
  end.

(** Lines 466-471: the context of a computer search. *)
Definition search_config (st : ChessState) : ChessState :=
  let st := set_legal_move_check st 0 in
  let st := set_depth_limit st MAX_DEPTH_PLY0 in
  let st := set_stack_depth st 0 in
  set_best st (-1) (-1).

(** ** [make_move] *)

(** Whether [i] indexes a cell of the 128-cell array. *)
Definition in_array (i : Z) : bool := (0 <=? i) && (i <? BOARD_SIZE).

(** [b[i]] and [b[i] = v] as [make_move] performs them, on indices it does
    not check: an access outside the array has no defined result. *)
Definition load (b : list Z) (i : Z) : option Z :=
  if in_array i then Some (cell b i) else None.

Definition store_at (b : list Z) (i v : Z) : option (list Z) :=
  if in_array i then Some (set_cell b i v) else None.

(** Lines 498-529 of [make_move]: promotion, en passant capture and the new
    en passant target of a pawn move.  Returns the board and [enp]. *)
Definition pawn_effects (b : list Z) (enp from to piece captured : Z)
    : option (list Z * Z) :=
  b1 ← (if (Z.land to 0xF0 =? 0x00) || (Z.land to 0xF0 =? 0x70)
        then store_at b to (Z.lor (Z.land piece COLOR_MASK) QUEEN)
        else Some b);
  let diff := to - from in
  b2 ← (if (Z.land diff 0x0F >? 1) || (Z.land diff 0x0F <? -1) then
          if (captured =? EMPTY) && (to =? enp) then
            let ep_pawn_square := if diff >? 0 then to - 16 else to + 16 in
            store_at b1 ep_pawn_square EMPTY
          else Some b1
        else Some b1);
  Some (b2, if (diff =? 32) || (diff =? -32) then to else 0).

(** Lines 531-543 of [make_move]: the rook of a castling king. *)
Definition castling_effects (b : list Z) (from to : Z) : option (list Z) :=
  let diff := to - from in
  if diff =? 2 then
    r ← load b (to + 1);
    b1 ← store_at b (to - 1) r;
    store_at b1 (to + 1) EMPTY
  else if diff =? -2 then
    r ← load b (to - 2);
    b1 ← store_at b (to + 1) r;
    store_at b1 (to - 2) EMPTY
  else Some b.

(** Lines 487-544. *)
Definition make_move (st : ChessState) (from to : Z) : option ChessState :=
  piece ← load (board st) from;
  captured ← load (board st) to;
  b ← store_at (board st) to (Z.land piece PIECE_FULL_MASK);
  b ← store_at b from EMPTY;
  let piece_type := get_piece_type piece in
  '(b, new_enp) ← (if piece_type =? PAWN
                   then pawn_effects b (enp st) from to piece captured
                   else Some (b, 0));
  b ← (if piece_type =? KING then castling_effects b from to else Some b);
  Some (set_enp (set_board st b) new_enp).

(** Lines 465-484, without the printing of the move. *)
Definition computer_move (st : ChessState) (color : Z) : option ChessState :=
  let st := search_config st in
  match play st (-1) (-1) color with
  | None => None
  | Some (st, _, _) =>
      if (0 <=? best_from st) && (0 <=? best_to st)
      then make_move st (best_from st) (best_to st)
      else Some st
  end.

(** ** The enumerator, read off the loops of [play] *)

(** The indices [i, i+1, ..., i+n-1] a [for] loop runs through. *)
Fixpoint zrange (n : nat) (i : Z) : list Z :=
  match n with
  | O => []
  | S n' => i :: zrange n' (i + 1)
  end.

(** The targets that reach [valid_move] along one direction, each with the
    contents of the target square.  With [through = false] the ray ends as
    lines 431-435 end it: after the first target of a piece that does not
    slide, or on the first occupied target.  With [through = true] it goes on
    until an iteration breaks. *)
Fixpoint ray_targets (through : bool) (fuel : nat) (b : list Z)
    (enp current_color movement_offset movement_count : Z)
    (is_sliding_piece : bool) (move_dir di : Z) : list (Z * Z) :=
  match fuel with
  | O => []
  | S fuel' =>
      let di := next_square movement_offset move_dir di in
      if off_board di then []
      else if negb (reaches_valid_move b enp current_color
                      movement_offset movement_count di) then []
      else
        let target_piece := cell b di in
        let target_type := Z.land target_piece PIECE_FULL_MASK in
        (di, target_piece) ::
        (if through || (is_sliding_piece && (target_type =? EMPTY))
         then ray_targets through fuel' b enp current_color movement_offset
                movement_count is_sliding_piece move_dir di
         else [])
  end.

(** A generated move: origin, target, contents of the target square. *)
Definition move : Type := Z * Z * Z.

Definition piece_moves (through : bool) (b : list Z) (enp current_color si : Z)
    : list move :=
  if negb (Z.land si 0x88 =? 0) then []
  else
    match movement current_color (cell b si) with
    | None => []
    | Some (movement_offset, movement_count, is_sliding_piece) =>
        flat_map
          (fun move_dir =>
             map (fun t : Z * Z => (si, fst t, snd t))
                 (ray_targets through ray_fuel b enp current_color movement_offset
                    movement_count is_sliding_piece move_dir si))
          (zrange (Z.to_nat movement_count) 0)
    end.

Definition moves (through : bool) (b : list Z) (enp current_color : Z) : list move :=
  flat_map (piece_moves through b enp current_color) (zrange 120 0).

(** The moves a search node generates, in the order it generates them. *)
Definition gen_moves (b : list Z) (enp current_color : Z) : list move :=
  moves false b enp current_color.

(** The moves a validating pass at the root runs through. *)
Definition pass_moves (b : list Z) (enp current_color : Z) : list move :=
  moves true b enp current_color.

Definition captures_king (m : move) : bool := get_piece_type (snd m) =? KING.

Definition is_pair (origin target : Z) (m : move) : bool :=
  (fst (fst m) =? origin) && (snd (fst m) =? target).

(** The board a move is searched on (lines 402-403). *)
Definition moved_board (b : list Z) (si di : Z) : list Z :=
  set_cell (set_cell b di (Z.land (cell b si) PIECE_FULL_MASK)) si EMPTY.

(** ** What a node computes from the moves it runs through *)

(** The state of the loops of a search node after some moves: the function
    has returned, or it goes on with the best score [bp]; [bst] is the move
    recorded in [best_from]/[best_to] since the node was entered, if any. *)
Inductive outcome : Type :=
| Stopped (score rv : Z) (bst : option (Z * Z))
| Running (bp : Z) (bst : option (Z * Z)).

Section Node.

(** [reply si di]: what line 413 subtracts for the move [si]->[di], the
    score of the searched reply, or nothing at the depth limit. *)
Variable reply : Z -> Z -> Z.
(** Whether the node is the root ([stack_depth == 0]). *)
Variable root : bool.
(** The score of a king capture at this node. *)
Variable kcs : Z.

Definition move_score (m : move) : Z :=
  entry piece_scores (get_piece_type (snd m)) - reply (fst (fst m)) (snd (fst m)).

Fixpoint search_moves (ms : list move) (bp : Z) (bst : option (Z * Z)) : outcome :=
  match ms with
  | [] => Running bp bst
  | m :: ms' =>
      if captures_king m then Stopped kcs 1 bst
      else if move_score m >? bp
           then search_moves ms' (move_score m)
                  (if root then Some (fst m) else bst)
           else search_moves ms' bp bst
  end.

(** A validating pass: the first move that captures a king or is the pair
    asked for ends it. *)
Fixpoint scan_moves (origin target : Z) (ms : list move) : option (Z * Z) :=
  match ms with
  | [] => None
  | m :: ms' =>
      if captures_king m then Some (kcs, 1)
      else if is_pair origin target m then Some (0, 0)
      else scan_moves origin target ms'
  end.

End Node.

Section Value.

(** The fields [play] reads and never changes. *)
Variables dl ep lmc : Z.

(** The score, the returned [int] and the move recorded by [play] on board
    [b] at [stack_depth = sd], with [fuel] levels of recursion. *)
Fixpoint node_value (fuel : nat) (b : list Z) (sd origin target cc : Z)
    : Z * Z * option (Z * Z) :=
  match fuel with
  | O => (0, 0, None)
  | S fuel' =>
      let kcs := if sd >? MAX_DEPTH_PLY1 then MAX_CHECKMATE_SCORE
                 else KING_CAPTURE_SCORE in
      if negb (lmc =? 0) && (sd =? 0) then
        match scan_moves kcs origin target (pass_moves b ep cc) with
        | Some (s, r) => (s, r, None)
        | None => (ILLEGAL_MOVE_SCORE, 0, None)
        end
      else
        let reply si di :=
          if sd <? dl
          then fst (fst (node_value fuel' (moved_board b si di) (sd + 2)
                           (-1) (-1) (Z.lxor cc COLOR_MASK)))
          else 0 in
        match search_moves reply (sd =? 0) kcs (gen_moves b ep cc) MIN_SCORE None with
        | Stopped s r bst => (s, r, bst)
        | Running bp bst => (bp, 0, bst)
        end
  end.

End Value.

(** [best_from]/[best_to] after a node that recorded [bst]. *)
Definition upd (st : ChessState) (bst : option (Z * Z)) : ChessState :=
  match bst with
  | Some (f, t) => set_best st f t
  | None => st
  end.

(** [st'] is [st] but, possibly, for the recorded move. *)
Definition frame (st st' : ChessState) : Prop :=
  exists f t, st' = set_best st f t.

Definition outcome_score (o : outcome) : Z :=
  match o with
  | Stopped s _ _ => s
  | Running bp _ => bp
  end.

Definition outcome_rv (o : outcome) : Z :=
  match o with
  | Stopped _ r _ => r
  | Running _ _ => 0
  end.

Definition outcome_best (o : outcome) : option (Z * Z) :=
  match o with
  | Stopped _ _ bst => bst
  | Running _ bst => bst
  end.

Definition finish (st : ChessState) (o : outcome) : flow :=
  match o with
  | Stopped s r _ => Return st s r
  | Running bp _ => Next st bp
  end.

Definition scanned (st : ChessState) (bp : Z) (o : option (Z * Z)) : flow :=
  match o with
  | Some (s, r) => Return st s r
  | None => Next st bp
  end.

(** Whether a ray of [fuel] iterations from [di] leaves the board. *)
Fixpoint leaves_board (fuel : nat) (movement_offset move_dir di : Z) : bool :=
  match fuel with
  | O => false
  | S fuel' =>
      let di := next_square movement_offset move_dir di in
      off_board di || leaves_board fuel' movement_offset move_dir di
  end.

(** The state the reply to a move is searched in. *)
Definition child_state (st : ChessState) (b : list Z) : ChessState :=
  set_stack_depth (set_board st b) (stack_depth st + 2).

(** What line 413 subtracts for the move [si]->[di] when the recursive call
    on board [b] writes the score [sub b]; nothing at the depth limit. *)
Definition reply_of (st0 : ChessState) (sub : list Z -> Z) (si di : Z) : Z :=
  if stack_depth st0 <? depth_limit st0
  then sub (moved_board (board st0) si di)
  else 0.

(** Every ray from a square of the board leaves the board within
    [ray_fuel] steps, whatever the displacement. *)
Definition rays_leave : bool :=
  forallb (fun si =>
             negb (Z.land si 0x88 =? 0) ||
             forallb (fun k => leaves_board ray_fuel k 0 si) (zrange 24 0))
          (zrange 120 0).

(** [n] levels of recursion are enough for [play] from [st]. *)
Definition enough (n : nat) (st : ChessState) : Prop :=
  (0 < n)%nat /\ depth_limit st - stack_depth st < 2 * Z.of_nat n - 1.

Definition value_of (n : nat) (st : ChessState) (oh th cc : Z)
    : Z * Z * option (Z * Z) :=
  node_value (depth_limit st) (enp st) (legal_move_check st) n
             (board st) (stack_depth st) oh th cc.

(** The score a call of [play] writes; 0 stands for a call that does not
    return, which [play_value] excludes. *)
Definition score_of (r : option (ChessState * Z * Z)) : Z :=
  match r with
  | Some (_, s, _) => s
  | None => 0
  end.

(** The score of the reply searched for the move [si]->[di] from [st]
    (lines 408-414), nothing at the depth limit. *)
Definition reply_score (st : ChessState) (cc si di : Z) : Z :=
  if stack_depth st <? depth_limit st
  then score_of (play (child_state st (moved_board (board st) si di))
                      (-1) (-1) (Z.lxor cc COLOR_MASK))
  else 0.

(** The state [st] in the course of the node entered with [st0], when [bst]
    is the move recorded since: [st0] but for the recorded move, and, from a
    depth of zero on, exactly [upd st0 bst]. *)
Definition at_node (st0 st : ChessState) (bst : option (Z * Z)) : Prop :=
  frame st0 st /\ (0 <= stack_depth st0 -> st = upd st0 bst).

(** [search_moves] for the node entered with [st0], when the recursive call
    on board [b] writes [sub b]. *)
Definition node_moves (st0 : ChessState) (sub : list Z -> Z)
    : list move -> Z -> option (Z * Z) -> outcome :=
  search_moves (reply_of st0 sub) (stack_depth st0 =? 0) (king_capture_score st0).

(** The result [r] of a loop of the node entered with [st0] is what the
    moves [ms] come to from best score [bp] and recorded move [bst]. *)
Definition runs (st0 : ChessState) (sub : list Z -> Z) (r : option flow)
    (ms : list move) (bp : Z) (bst : option (Z * Z)) : Prop :=
  exists st',
    r = Some (finish st' (node_moves st0 sub ms bp bst)) /\
    at_node st0 st' (outcome_best (node_moves st0 sub ms bp bst)).

(** What the loops of a search node come to, in terms of [play] on the
    positions after its moves. *)
Definition node_outcome (st : ChessState) (cc : Z) : outcome :=
  search_moves (reply_score st cc) (stack_depth st =? 0) (king_capture_score st)
               (gen_moves (board st) (enp st) cc) MIN_SCORE None.

(** The nodes of the search below [st]: [st] itself, and the state the
    reply to a move is searched in (line 410) from a node whose [stack_depth]
    is below its [depth_limit], whatever the board and the move recorded so
    far. *)
Inductive below (st : ChessState) : ChessState -> Prop :=
| below_root : below st st
| below_child (n n1 : ChessState) (b : list Z) :
    below st n -> frame n n1 -> stack_depth n < depth_limit n ->
    below st (child_state n1 b).

(** ** Positions used below *)

(** The empty board of [create_board] with the pieces [ps] (square, cell
    value) put on it. *)
Definition place (b : list Z) (ps : list (Z * Z)) : list Z :=
  fold_left (fun b p => set_cell b (fst p) (snd p)) ps b.

Definition position (ps : list (Z * Z)) : ChessState :=
  set_board zero_state (place create_board_cells ps).

(** White rook a4, white king e1, black king a8. *)
Definition rook_takes_king : ChessState :=
  position [(0x40, 0x0A); (0x74, 0x0E); (0x00, 0x06)].

(** Black knight a8, white rook b7: the rook takes the knight wherever it
    goes, and Black is then left without a move. *)
Definition lone_knight : ChessState :=
  search_config (position [(0x00, 0x05); (0x11, 0x0A)]).

(** White king e1 with both rooks, black king e8, none of them moved. *)
Definition castle_ready : ChessState :=
  position [(0x74, 0x1E); (0x77, 0x1A); (0x70, 0x1A); (0x04, 0x16)].

(** White king d1 and white rook h1, neither moved. *)
Definition king_on_d1 : ChessState :=
  position [(0x73, 0x1E); (0x77, 0x1A)].

(** Black king d8 and black rook a8, neither moved. *)
Definition king_on_d8 : ChessState :=
  position [(0x03, 0x16); (0x00, 0x12)].

(** Black pawn d5, white pawn d6. *)
Definition pawns_face_to_face : ChessState :=
  position [(0x33, 0x01); (0x23, 0x09)].

(** White pawn d2 and knight b1, black pawn e3 and knight b8, kings e1, e8. *)
Definition before_double_advance : ChessState :=
  position [(0x63, 0x09); (0x54, 0x01); (0x74, 0x0E); (0x04, 0x06);
            (0x71, 0x0D); (0x01, 0x05)].

Definition after_double_advance : option ChessState :=
  make_move before_double_advance 0x63 0x43.

Definition two_moves_later : option ChessState :=
  st ← after_double_advance;
  st ← make_move st 0x01 0x20;
  make_move st 0x71 0x50.

(** Black pawn b7, alone on the board. *)
Definition pawn_on_b7 : ChessState := position [(0x11, 0x01)].

(** ** The other functions of [toledo_atomchess.c] *)

Definition set_rand_seed (st : ChessState) (v : Z) : ChessState :=
  mkState (board st) (depth_limit st) (enp st) (temp_score st) (legal_move_check st)
          (stack_depth st) (best_from st) (best_to st) v.

(** Lines 75-79.  [rand_seed] is an [unsigned int]: the product and the sum
    wrap modulo 2^32 before the mask.  Returns the state and the byte. *)
Definition get_random_byte (st : ChessState) : ChessState * Z :=
  let seed := Z.land ((rand_seed st * 1103515245 + 12345) mod 2 ^ 32) 0x7fffffff in
  (set_rand_seed st seed, Z.land seed 0xFF).

(** The bytes of [n] successive calls of [get_random_byte]. *)
Fixpoint random_bytes (n : nat) (st : ChessState) : list Z :=
  match n with
  | O => []
  | S n' => snd (get_random_byte st) :: random_bytes n' (fst (get_random_byte st))
  end.

(** The low byte of the next seed, from the low byte of the seed. *)
Definition next_low_byte (x : Z) : Z := (x * 109 + 57) mod 256.

Fixpoint low_bytes (n : nat) (x : Z) : list Z :=
  match n with
  | O => []
  | S n' => next_low_byte x :: low_bytes n' (next_low_byte x)
  end.

(** Lines 108-120: both loops of [create_board], over the cells of the
    array the state holds. *)
Definition create_board (st : ChessState) : ChessState :=
  let b := fold_left (fun b i => set_cell b i EMPTY) (zrange 128 0) (board st) in
  let b := fold_left (fun b i => if negb (Z.land i 0x88 =? 0)
                                 then set_cell b i FRONTIER else b)
                     (zrange 128 0) b in
  set_board st b.

(** Lines 123-143. *)
Definition setup_board (st : ChessState) : ChessState :=
  let st := set_enp st 0 in
  set_board st (fold_left place_file (zrange 8 0) (board st)).

(** Lines 216-221. *)
Definition get_square (st : ChessState) (pos : Z) : Z :=
  if negb (is_valid_square pos) || (pos <? 0) || (BOARD_SIZE <=? pos)
  then FRONTIER
  else cell (board st) pos.

(** Lines 224-228; [value] is an [unsigned char]. *)
Definition set_square (st : ChessState) (pos value : Z) : ChessState :=
  if is_valid_square pos && (0 <=? pos) && (pos <? BOARD_SIZE)
  then set_board st (set_cell (board st) pos value)
  else st.

(** Lines 241-249: the two characters written before the terminator, as
    the bytes stored (the conversion to [char] keeps the low eight bits). *)
Definition position_to_algebraic (pos : Z) : Z * Z :=
  let col := Z.land pos 0x07 in
  let row := Z.shiftr pos 4 in
  let rank := 8 - row in
  ((65 + col) mod 256, (48 + rank) mod 256).

(** Lines 183-195: what [read_key] returns for the key [ch] it read. *)
Definition read_key (ch : Z) : Z := Z.land ch 0x0F.

(** Lines 199-208, for the two keys read: the letter, then the digit. *)
Definition key_to_coord (letter_key digit_key : Z) : Z :=
  let letter := read_key letter_key in
  let di := letter + 127 in
  let digit := read_key digit_key in
  let offset := Z.shiftl digit 4 in
  di - offset.

(** Lines 252-272. *)
Definition is_en_passant (from to diff : Z) : Z :=
  if Z.land diff 1 =? 0 then 0
  else if negb (Z.land diff 2 =? 0) then from - 1 else from + 1.

(** [toupper], in the C locale, for a key code. *)
Definition toupper (c : Z) : Z :=
  if (97 <=? c) && (c <=? 122) then c - 32 else c.

(** How one iteration of the loop of [run_game] ends. *)
Inductive turn_end : Type :=
| Exited
| Rejected (st : ChessState)
| Moved (st : ChessState).

(** Lines 548-598: one iteration of the loop of [run_game], for the keys
    [k1] .. [k4] it reads ([k2] .. [k4] are not read when [k1] quits), without
    the display.  The conversion of [toupper]'s result to [char] keeps its
    low eight bits, which is all the comparison with ['Q'] looks at.  No
    result when [make_move] leaves the array. *)
Definition run_game_turn (st : ChessState) (k1 k2 k3 k4 : Z) : option turn_end :=
  if toupper k1 mod 256 =? 81 then Some Exited
  else
    let from_col := Z.land k1 0x0F in
    let from_row := read_key k2 in
    let to_col := read_key k3 in
    let to_row := read_key k4 in
    let from := (from_col + 127) - Z.shiftl from_row 4 in
    let to := (to_col + 127) - Z.shiftl to_row 4 in
    '(st, score) ← play_validate st from to WHITE;
    if score <? ILLEGAL_MOVE_SCORE then Some (Rejected st)
    else
      st ← make_move st from to;
      st ← computer_move st BLACK;
      Some (Moved st).

(** ** Well-formed boards *)

(** A square of the board: [16 * row + col] with [row], [col] in 0..7. *)
Definition on_board (pos : Z) : bool :=
  (Z.land pos 0x88 =? 0) && (0 <=? pos) && (pos <? BOARD_SIZE).

(** A cell of a square: empty, or a piece (type 1..6, colour bit, moved
    bit). *)
Definition proper_cell (v : Z) : bool :=
  (v =? EMPTY) ||
  ((0 <=? v) && (v <? 32) && (1 <=? get_piece_type v) && (get_piece_type v <=? 6)).

(** The 128 cells: frontier markers off the board, proper cells on it. *)
Definition wf_board (b : list Z) : Prop :=
  length b = 128%nat /\
  forall i, 0 <= i < 128 ->
    if on_board i then proper_cell (cell b i) = true else cell b i = FRONTIER.

(** * Properties *)

(** ** Arrays and records *)

Lemma set_cell_same (b : list Z) (i : Z) : set_cell b i (cell b i) = b.
Proof.
  unfold set_cell, cell.
  destruct (b !! Z.to_nat i) as [x|] eqn:E; simpl.
  - by apply list_insert_id.
  - apply list_insert_ge. by apply lookup_ge_None.
Qed.

Lemma set_cell_twice (b : list Z) (i x y : Z) :
  set_cell (set_cell b i x) i y = set_cell b i y.
Proof. unfold set_cell. apply list_insert_insert_eq. Qed.

Lemma set_cell_swap (b : list Z) (i j x y : Z) :
  Z.to_nat i <> Z.to_nat j ->
  set_cell (set_cell b i x) j y = set_cell (set_cell b j y) i x.
Proof. intros H. unfold set_cell. apply list_insert_insert_ne. congruence. Qed.

(** Lines 417-418 undo lines 402-403. *)
Lemma unmake_restores (b : list Z) (si di p : Z) :
  set_cell (set_cell (set_cell (set_cell b di p) si EMPTY) si (cell b si))
           di (cell b di) = b.
Proof.
  rewrite set_cell_twice.
  destruct (decide (Z.to_nat di = Z.to_nat si)) as [E|N].
  - unfold set_cell, cell. rewrite E.
    rewrite !list_insert_insert_eq.
    destruct (b !! Z.to_nat si) as [x|] eqn:L; simpl.
    + by apply list_insert_id.
    + apply list_insert_ge. by apply lookup_ge_None.
  - rewrite (set_cell_swap _ si di) by congruence.
    rewrite set_cell_twice, !set_cell_same. done.
Qed.

Lemma length_set_cell (b : list Z) (i v : Z) : length (set_cell b i v) = length b.
Proof. apply length_insert. Qed.

Lemma cell_set_cell_same (b : list Z) (i v : Z) :
  (Z.to_nat i < length b)%nat -> cell (set_cell b i v) i = v.
Proof. intros H. unfold cell, set_cell. by rewrite list_lookup_insert_eq. Qed.

Lemma cell_set_cell_other (b : list Z) (i j v : Z) :
  Z.to_nat i <> Z.to_nat j -> cell (set_cell b i v) j = cell b j.
Proof. intros H. unfold cell, set_cell. by rewrite list_lookup_insert_ne. Qed.

Lemma set_enp_same (st : ChessState) : set_enp st (enp st) = st.
Proof. by destruct st. Qed.

(** ** Loops and fuel *)

Lemma in_zrange (n : nat) (i0 i : Z) :
  In i (zrange n i0) <-> i0 <= i < i0 + Z.of_nat n.
Proof.
  revert i0. induction n as [|n IH]; intros i0; simpl.
  - lia.
  - rewrite IH. lia.
Qed.

Lemma land_15_range (x : Z) : 0 <= Z.land x 15 < 16.
Proof.
  change 15 with (Z.ones 4). rewrite Z.land_ones by lia.
  apply Z.mod_pos_bound. reflexivity.
Qed.

(** The six geometries of lines 302-319. *)
Lemma movement_cases (cc p mo mc : Z) (sl : bool) :
  movement cc p = Some (mo, mc, sl) ->
  In (mo, mc, sl)
     [ (16, 4, false); (20, 4, false); (8, 4, true); (12, 4, true);
       (8, 8, true); (0, 8, false); (8, 8, false) ].
Proof.
  unfold movement, PIECE_FULL_MASK.
  pose proof (land_15_range (Z.lxor p cc)) as R.
  set (t := Z.land (Z.lxor p cc) 15) in *.
  assert (t = 0 \/ t = 1 \/ t = 2 \/ t = 3 \/ t = 4 \/ t = 5 \/ t = 6 \/ 7 <= t)
    as C by lia.
  destruct C as [E|[E|[E|[E|[E|[E|[E|E]]]]]]];
    try (rewrite E; cbn; try destruct (cc =? BLACK);
         intros H; inversion H; subst; cbn; tauto).
  destruct (t - 1 <? 0) eqn:A; [lia|].
  destruct (6 <=? t - 1) eqn:B; [|lia].
  discriminate.
Qed.

Lemma leaves_board_sum (fuel : nat) (mo md di : Z) :
  leaves_board fuel mo md di = leaves_board fuel (mo + md) 0 di.
Proof.
  revert di. induction fuel as [|fuel IH]; intros di; simpl; [done|].
  unfold next_square at 1 3. rewrite Z.add_0_r.
  f_equal. unfold next_square. rewrite Z.add_0_r. apply IH.
Qed.

Lemma rays_leave_true : rays_leave = true.
Proof. vm_compute. reflexivity. Qed.

Lemma ray_fuel_enough (cc p si mo mc md : Z) (sl : bool) :
  In si (zrange 120 0) ->
  Z.land si 0x88 = 0 ->
  movement cc p = Some (mo, mc, sl) ->
  In md (zrange (Z.to_nat mc) 0) ->
  leaves_board ray_fuel mo md si = true.
Proof.
  intros Hsi Hv Hm Hmd.
  rewrite leaves_board_sum.
  pose proof rays_leave_true as T. unfold rays_leave in T.
  rewrite forallb_forall in T. specialize (T si Hsi).
  rewrite Hv in T. change (negb (0 =? 0)) with false in T. cbn [orb] in T.
  rewrite forallb_forall in T. apply T.
  apply in_zrange. apply in_zrange in Hmd.
  apply movement_cases in Hm. simpl in Hm.
  repeat (destruct Hm as [Hm|Hm]; [inversion Hm; subst; simpl in Hmd; lia|]).
  contradiction.
Qed.

Lemma scan_moves_app (kcs oh th : Z) (l1 l2 : list move) :
  scan_moves kcs oh th (l1 ++ l2) =
  match scan_moves kcs oh th l1 with
  | Some x => Some x
  | None => scan_moves kcs oh th l2
  end.
Proof.
  induction l1 as [|m l1 IH]; simpl; [done|].
  destruct (captures_king m); [done|].
  destruct (is_pair oh th m); [done|]. apply IH.
Qed.

Lemma search_moves_app (reply : Z -> Z -> Z) (root : bool) (kcs : Z)
    (l1 l2 : list move) (bp : Z) (bst : option (Z * Z)) :
  search_moves reply root kcs (l1 ++ l2) bp bst =
  match search_moves reply root kcs l1 bp bst with
  | Stopped s r b => Stopped s r b
  | Running bp' bst' => search_moves reply root kcs l2 bp' bst'
  end.
Proof.
  revert bp bst. induction l1 as [|m l1 IH]; intros bp bst; simpl; [done|].
  destruct (captures_king m); [done|].
  destruct (move_score reply m >? bp); apply IH.
Qed.

(** ** A validating pass *)

Section Validation.

Variable store : list Z -> Z -> Z -> list Z.
Variable rec : ChessState -> Z -> Z -> Z -> option (ChessState * Z * Z).
Variables oh th cc : Z.
Variable st : ChessState.
Hypothesis Hmode : validating st = true.

Lemma for_range_scanned (L : Z -> list move) (n : nat) :
  forall (i0 : Z) (body : Z -> ChessState -> Z -> option flow) (bp : Z),
  (forall i bp', In i (zrange n i0) ->
     body i st bp' =
     Some (scanned st bp' (scan_moves (king_capture_score st) oh th (L i)))) ->
  for_range n i0 body st bp =
  Some (scanned st bp
          (scan_moves (king_capture_score st) oh th (flat_map L (zrange n i0)))).
Proof.
  induction n as [|n IH]; intros i0 body bp H; simpl; [done|].
  rewrite H by (left; reflexivity).
  rewrite scan_moves_app.
  destruct (scan_moves (king_capture_score st) oh th (L i0)) as [[s r]|]; simpl.
  - done.
  - apply IH. intros i bp' Hi. apply H. by right.
Qed.

Lemma ray_validating (pao si mo mc : Z) (sl : bool) (md : Z) (fuel : nat) :
  forall bp di,
  leaves_board fuel mo md di = true ->
  ray store rec oh th cc fuel pao si mo mc sl md st bp di =
  Some (scanned st bp
          (scan_moves (king_capture_score st) oh th
             (map (fun t : Z * Z => (si, fst t, snd t))
                  (ray_targets true fuel (board st) (enp st) cc mo mc sl md di)))).
Proof.
  induction fuel as [|fuel IH]; intros bp di Hl; [discriminate|].
  cbn [ray ray_targets leaves_board] in *.
  destruct (off_board (next_square mo md di)) eqn:Hoff; [done|].
  destruct (reaches_valid_move _ _ _ _ _ _); [|done].
  cbn [negb orb map scan_moves]. unfold captures_king, is_pair. cbn [fst snd].
  destruct (get_piece_type _ =? KING); [done|].
  rewrite Hmode.
  destruct ((si =? oh) && (next_square mo md di =? th)); [done|].
  apply IH. exact Hl.
Qed.

Lemma square_validating (si bp : Z) :
  In si (zrange 120 0) ->
  square store rec oh th cc si st bp =
  Some (scanned st bp
          (scan_moves (king_capture_score st) oh th
             (piece_moves true (board st) (enp st) cc si))).
Proof.
  intros Hsi. unfold square, piece_moves.
  destruct (Z.land si 0x88 =? 0) eqn:Hv; [|done]. cbn [negb].
  destruct (movement cc (cell (board st) si)) as [[[mo mc] sl]|] eqn:Hm; [|done].
  unfold directions.
  apply (for_range_scanned
           (fun md => map (fun t : Z * Z => (si, fst t, snd t))
                        (ray_targets true ray_fuel (board st) (enp st) cc
                           mo mc sl md si))).
  intros md bp' Hmd. apply ray_validating.
  apply Z.eqb_eq in Hv. eapply ray_fuel_enough; eauto.
Qed.

(** A validating pass returns the state it was given. *)
Lemma play_body_validating :
  play_body store rec oh th cc st =
  Some (st,
        match scan_moves (king_capture_score st) oh th
                (pass_moves (board st) (enp st) cc) with
        | Some (s, _) => s
        | None => ILLEGAL_MOVE_SCORE
        end,
        match scan_moves (king_capture_score st) oh th
                (pass_moves (board st) (enp st) cc) with
        | Some (_, r) => r
        | None => 0
        end).
Proof.
  unfold play_body.
  rewrite (for_range_scanned (piece_moves true (board st) (enp st) cc))
    by (intros; by apply square_validating).
  fold (moves true (board st) (enp st) cc).
  fold (pass_moves (board st) (enp st) cc).
  destruct (scan_moves _ _ _ _) as [[s r]|]; simpl; [done|].
  by rewrite Hmode, set_enp_same.
Qed.

End Validation.

(** ** A search node *)

Lemma frame_refl (st : ChessState) : frame st st.
Proof. exists (best_from st), (best_to st). by destruct st. Qed.

Lemma frame_fields (st st' : ChessState) :
  frame st st' ->
  board st' = board st /\ depth_limit st' = depth_limit st /\
  enp st' = enp st /\ legal_move_check st' = legal_move_check st /\
  stack_depth st' = stack_depth st.
Proof. by intros (f & t & ->). Qed.

Lemma frame_validating (st st' : ChessState) :
  frame st st' -> validating st' = validating st.
Proof. by intros (f & t & ->). Qed.

Lemma frame_king_capture_score (st st' : ChessState) :
  frame st st' -> king_capture_score st' = king_capture_score st.
Proof. by intros (f & t & ->). Qed.

Lemma frame_set_best (st st' : ChessState) (f t : Z) :
  frame st st' -> frame st (set_best st' f t).
Proof. intros (f' & t' & ->). by exists f, t. Qed.

(** Lines 417-418 after lines 402-403 and the search of the reply. *)
Lemma restore_child (st : ChessState) (si di f t : Z) :
  let st1 := set_best (child_state st (moved_board (board st) si di)) f t in
  let st2 := set_stack_depth st1 (stack_depth st1 - 2) in
  let st3 := set_board st2 (set_cell (board st2) si (cell (board st) si)) in
  set_board st3 (set_cell (board st3) di (cell (board st) di)) = set_best st f t.
Proof.
  destruct st as [b d e ts l s bf bt r].
  unfold child_state, moved_board, set_board, set_best, set_stack_depth. cbn.
  rewrite unmake_restores. f_equal. lia.
Qed.

Lemma restore_leaf (st : ChessState) (si di : Z) :
  let st1 := set_board st (moved_board (board st) si di) in
  let st2 := set_board st1 (set_cell (board st1) si (cell (board st) si)) in
  set_board st2 (set_cell (board st2) di (cell (board st) di)) = st.
Proof.
  destruct st as [b d e ts l s bf bt r].
  unfold moved_board, set_board. cbn.
  rewrite unmake_restores. reflexivity.
Qed.

Section Search.

Variable rec : ChessState -> Z -> Z -> Z -> option (ChessState * Z * Z).
Variables oh th cc : Z.
Variable st0 : ChessState.
Hypothesis Hmode : validating st0 = false.

(** The recursive call, below the depth limit, writes a score [sub b] that
    depends on the board only, and returns the state it was given but,
    possibly, for the recorded move; from a node at a depth of zero or more
    it returns the very state it was given. *)
Variable sub : list Z -> Z.
Hypothesis Hrec :
  stack_depth st0 < depth_limit st0 ->
  forall st b, frame st0 st ->
  exists st' rv,
    rec (child_state st b) (-1) (-1) (Z.lxor cc COLOR_MASK) = Some (st', sub b, rv) /\
    frame (child_state st b) st' /\
    (0 <= stack_depth st0 -> st' = child_state st b).

Lemma at_node_entry : at_node st0 st0 None.
Proof. split; [apply frame_refl|done]. Qed.

Lemma explore_search (st : ChessState) (bst : option (Z * Z)) (si di ct : Z) :
  at_node st0 st bst ->
  exists st',
    explore set_cell rec cc st si di (cell (board st0) si) ct =
    Some (st', entry piece_scores ct - reply_of st0 sub si di) /\
    at_node st0 st' bst.
Proof.
  intros [Hf Hu].
  unfold explore, reply_of.
  destruct (frame_fields _ _ Hf) as (Eb & Ed & Ee & El & Es).
  rewrite <- Eb, <- Ed, <- Es.
  cbn [stack_depth depth_limit set_board board set_stack_depth].
  fold (moved_board (board st) si di).
  destruct (stack_depth st <? depth_limit st) eqn:Hlt.
  - apply Z.ltb_lt in Hlt. rewrite Ed, Es in Hlt.
    destruct (Hrec Hlt st (moved_board (board st) si di) Hf)
      as (st1 & rv & Hr & (f' & t' & Hf1) & Hu1).
    unfold child_state in Hr.
    replace (set_stack_depth (set_board (set_board st _) _) _)
      with (set_stack_depth (set_board st (moved_board (board st) si di))
                            (stack_depth st + 2))
      by reflexivity.
    rewrite Hr, Hf1.
    exists (set_best st f' t'). split; [|split].
    + f_equal. f_equal. exact (restore_child st si di f' t').
    + by apply frame_set_best.
    + intros H0. specialize (Hu H0). specialize (Hu1 H0).
      rewrite <- Hu. rewrite Hf1 in Hu1.
      apply (f_equal best_from) in Hu1 as Ef.
      apply (f_equal best_to) in Hu1 as Et.
      cbn in Ef, Et. subst f' t'. by destruct st.
  - exists st. split; [|done]. rewrite Z.sub_0_r.
    match goal with
    | |- Some (?X, _) = _ => replace X with st; [reflexivity|]
    end.
    symmetry. exact (restore_leaf st si di).
Qed.

Lemma keep_best_search (st : ChessState) (bst : option (Z * Z)) (bp ms si di : Z) :
  at_node st0 st bst ->
  snd (keep_best st bp ms si di) = (if ms >? bp then ms else bp) /\
  at_node st0 (fst (keep_best st bp ms si di))
          (if ms >? bp
           then (if stack_depth st0 =? 0 then Some (si, di) else bst)
           else bst).
Proof.
  intros [Hf Hu]. unfold keep_best.
  destruct (frame_fields _ _ Hf) as (_ & _ & _ & _ & Es). rewrite Es.
  destruct (ms >? bp); [|done].
  destruct (stack_depth st0 =? 0) eqn:E0; cbn [fst snd]; [|done].
  split; [done|]. split; [by apply frame_set_best|].
  intros H0. rewrite (Hu H0). by destruct bst as [[f t]|].
Qed.

Lemma node_moves_app (l1 l2 : list move) (bp : Z) (bst : option (Z * Z)) :
  node_moves st0 sub (l1 ++ l2) bp bst =
  match node_moves st0 sub l1 bp bst with
  | Stopped s r b => Stopped s r b
  | Running bp' bst' => node_moves st0 sub l2 bp' bst'
  end.
Proof. apply search_moves_app. Qed.

Lemma ray_search (si mo mc : Z) (sl : bool) (md : Z) (fuel : nat) :
  forall st bp bst di,
  at_node st0 st bst ->
  leaves_board fuel mo md di = true ->
  runs st0 sub (ray set_cell rec oh th cc fuel (cell (board st0) si) si mo mc sl md st bp di)
       (map (fun t : Z * Z => (si, fst t, snd t))
            (ray_targets false fuel (board st0) (enp st0) cc mo mc sl md di))
       bp bst.
Proof.
  induction fuel as [|fuel IH]; intros st bp bst di Hat Hl; [discriminate|].
  cbn [ray ray_targets leaves_board] in *.
  destruct (frame_fields _ _ (proj1 Hat)) as (Eb & Ed & Ee & El & Es).
  rewrite Eb, Ee.
  destruct (off_board (next_square mo md di)) eqn:Hoff; [by exists st|].
  destruct (reaches_valid_move _ _ _ _ _ _); [|by exists st].
  cbn [negb orb map].
  rewrite (frame_king_capture_score _ _ (proj1 Hat)).
  rewrite (frame_validating _ _ (proj1 Hat)), Hmode.
  unfold runs, node_moves. cbn [search_moves]. unfold captures_king, move_score. cbn [fst snd].
  destruct (get_piece_type _ =? KING); [by exists st|].
  destruct (explore_search st bst si (next_square mo md di)
              (get_piece_type (cell (board st0) (next_square mo md di))) Hat)
    as (st1 & -> & Hat1).
  set (ms := entry piece_scores _ - reply_of _ _ _ _).
  destruct (keep_best_search st1 bst bp ms si (next_square mo md di) Hat1)
    as (Hbp & Hat2).
  destruct (keep_best st1 bp ms si (next_square mo md di)) as [st2 bp2].
  cbn [fst snd] in Hbp, Hat2. subst bp2.
  set (free := Z.land _ PIECE_FULL_MASK =? EMPTY).
  destruct (ms >? bp); destruct sl; destruct free;
    cbn [negb orb andb map search_moves];
    first [ by exists st2 | apply IH; [exact Hat2|exact Hl] ].
Qed.

Lemma for_range_search (L : Z -> list move) (n : nat) :
  forall (i0 : Z) (body : Z -> ChessState -> Z -> option flow) st bp bst,
  (forall i st' bp' bst', In i (zrange n i0) ->
     at_node st0 st' bst' -> runs st0 sub (body i st' bp') (L i) bp' bst') ->
  at_node st0 st bst ->
  runs st0 sub (for_range n i0 body st bp) (flat_map L (zrange n i0)) bp bst.
Proof.
  induction n as [|n IH]; intros i0 body st bp bst H Hat; cbn [for_range zrange flat_map].
  - by exists st.
  - destruct (H i0 st bp bst (or_introl eq_refl) Hat) as (st1 & -> & Hat1).
    unfold runs. rewrite node_moves_app.
    destruct (node_moves st0 sub (L i0) bp bst) as [s r b|bp' bst'];
      cbn [finish outcome_best] in *.
    + by exists st1.
    + apply IH; [|exact Hat1]. intros i st' bp'' bst'' Hi. apply H. by right.
Qed.

Lemma square_search (si : Z) (st : ChessState) (bp : Z) (bst : option (Z * Z)) :
  In si (zrange 120 0) ->
  at_node st0 st bst ->
  runs st0 sub (square set_cell rec oh th cc si st bp)
       (piece_moves false (board st0) (enp st0) cc si) bp bst.
Proof.
  intros Hsi Hat. unfold square, piece_moves.
  destruct (frame_fields _ _ (proj1 Hat)) as (Eb & _). rewrite Eb.
  destruct (Z.land si 0x88 =? 0) eqn:Hv; [|by exists st]. cbn [negb].
  destruct (movement cc (cell (board st0) si)) as [[[mo mc] sl]|] eqn:Hm;
    [|by exists st].
  unfold directions.
  apply (for_range_search
           (fun md => map (fun t : Z * Z => (si, fst t, snd t))
                        (ray_targets false ray_fuel (board st0) (enp st0) cc
                           mo mc sl md si))); [|exact Hat].
  intros md st' bp' bst' Hmd Hat'. apply ray_search; [exact Hat'|].
  apply Z.eqb_eq in Hv. eapply ray_fuel_enough; eauto.
Qed.

Lemma play_body_search :
  exists st',
    play_body set_cell rec oh th cc st0 =
    Some (st',
          outcome_score (node_moves st0 sub (gen_moves (board st0) (enp st0) cc) MIN_SCORE None),
          outcome_rv (node_moves st0 sub (gen_moves (board st0) (enp st0) cc) MIN_SCORE None)) /\
    at_node st0 st' (outcome_best (node_moves st0 sub (gen_moves (board st0) (enp st0) cc)
                                 MIN_SCORE None)).
Proof.
  unfold play_body.
  destruct (for_range_search (piece_moves false (board st0) (enp st0) cc)
              120 0 (square set_cell rec oh th cc) st0 MIN_SCORE None)
    as (st1 & -> & Hat1).
  { intros i st' bp' bst' Hi Hat'. by apply square_search. }
  { apply at_node_entry. }
  fold (moves false (board st0) (enp st0) cc) in *.
  fold (gen_moves (board st0) (enp st0) cc) in *.
  exists st1. split; [|exact Hat1].
  destruct (node_moves st0 sub _ _ _) as [s r b|bp' bst']; cbn [finish outcome_score outcome_rv];
    [done|].
  rewrite (frame_validating _ _ (proj1 Hat1)), Hmode.
  destruct (frame_fields _ _ (proj1 Hat1)) as (_ & _ & Ee & _). rewrite <- Ee.
  by rewrite set_enp_same.
Qed.

End Search.

(** ** [play] computes [node_value] *)

Lemma enough_levels (st : ChessState) : enough (levels st) st.
Proof.
  unfold enough, levels. split; [lia|].
  set (x := depth_limit st - stack_depth st).
  destruct (Z_lt_le_dec x 0) as [Hn|Hp].
  - lia.
  - pose proof (Z.div_mod (x + 1) 2 ltac:(lia)) as D.
    pose proof (Z.mod_pos_bound (x + 1) 2 ltac:(lia)) as M.
    assert (0 <= (x + 1) / 2) by (apply Z.div_pos; lia).
    rewrite Nat2Z.inj_succ, Z2Nat.id by lia. lia.
Qed.

Lemma levels_child (st : ChessState) (b : list Z) :
  stack_depth st < depth_limit st ->
  levels st = S (levels (child_state st b)).
Proof.
  intros Hlt. unfold levels, child_state. cbn [depth_limit stack_depth set_stack_depth set_board].
  f_equal.
  set (x := depth_limit st - stack_depth st).
  replace (depth_limit st - (stack_depth st + 2) + 1) with (x + 1 + (-1) * 2) by lia.
  rewrite Z.div_add by lia.
  assert (1 <= (x + 1) / 2) by (apply Z.div_le_lower_bound; lia).
  rewrite <- Z2Nat.inj_succ by lia. f_equal. lia.
Qed.

Lemma search_moves_inner (reply : Z -> Z -> Z) (kcs : Z) (ms : list move) :
  forall bp, outcome_best (search_moves reply false kcs ms bp None) = None.
Proof.
  induction ms as [|m ms IH]; intros bp; simpl; [done|].
  destruct (captures_king m); [done|].
  destruct (move_score reply m >? bp); apply IH.
Qed.

(** Below the root no move is recorded. *)
Lemma node_value_inner (dl ep lmc : Z) (n : nat) (b : list Z) (sd oh th cc : Z) :
  0 < sd -> snd (node_value dl ep lmc n b sd oh th cc) = None.
Proof.
  intros Hsd. destruct n as [|n]; [done|]. cbn [node_value].
  assert ((sd =? 0) = false) as -> by lia.
  rewrite andb_false_r.
  match goal with
  | |- context [search_moves ?r false ?k ?ms ?bp None] =>
      pose proof (search_moves_inner r k ms bp) as H;
      destruct (search_moves r false k ms bp None)
  end; simpl; exact H.
Qed.

(** The value of a node does not depend on the move recorded in the state. *)
Lemma value_of_frame (n : nat) (st st' : ChessState) (oh th cc : Z) :
  frame st st' -> value_of n st' oh th cc = value_of n st oh th cc.
Proof. by intros (f & t & ->). Qed.

Lemma child_frame (st st' : ChessState) (b : list Z) :
  frame st st' -> frame (child_state st b) (child_state st' b).
Proof. intros (f & t & ->). by exists f, t. Qed.

Lemma play_rec_value (n : nat) :
  forall st oh th cc,
  enough n st ->
  exists st',
    play_rec n st oh th cc =
    Some (st', fst (fst (value_of n st oh th cc)), snd (fst (value_of n st oh th cc))) /\
    frame st st' /\
    (0 <= stack_depth st -> st' = upd st (snd (value_of n st oh th cc))).
Proof.
  induction n as [|n IH]; intros st oh th cc [Hn He]; [lia|].
  cbn [play_rec]. unfold value_of. cbn [node_value].
  fold (king_capture_score st).
  destruct (validating st) eqn:Hm.
  - rewrite play_body_validating by done.
    unfold validating in Hm. rewrite Hm.
    exists st. destruct (scan_moves _ _ _ _) as [[s r]|];
      (split; [done|split; [apply frame_refl|done]]).
  - destruct (play_body_search (play_rec n) oh th cc st Hm
               (fun b => fst (fst (node_value (depth_limit st) (enp st)
                                     (legal_move_check st) n b (stack_depth st + 2)
                                     (-1) (-1) (Z.lxor cc COLOR_MASK)))))
      as (st' & Hp & Hf & Hu).
    + intros Hlt st1 b Hf1.
      assert (enough n (child_state st1 b)) as Hen.
      { destruct (frame_fields _ _ Hf1) as (_ & Ed & _ & _ & Es).
        unfold enough, child_state. cbn. rewrite Ed, Es. lia. }
      destruct (IH (child_state st1 b) (-1) (-1) (Z.lxor cc COLOR_MASK) Hen)
        as (st2 & Hp2 & Hf2 & Hu2).
      rewrite (value_of_frame n _ _ _ _ _ (child_frame _ _ b Hf1)) in Hp2, Hu2.
      exists st2. eexists. split; [exact Hp2|]. split; [exact Hf2|].
      intros H0.
      destruct (frame_fields _ _ Hf1) as (_ & _ & _ & _ & Es).
      rewrite Hu2 by (unfold child_state; cbn; lia).
      unfold value_of. rewrite node_value_inner by (unfold child_state; cbn; lia).
      reflexivity.
    + unfold validating in Hm. rewrite Hm.
      exists st'. unfold node_moves, reply_of in Hp, Hu.
      destruct (search_moves _ _ _ _ _ _); (split; [exact Hp|split; [exact Hf|exact Hu]]).
Qed.

(** [play] returns; the state it returns is the state it was given but for
    the recorded move. *)
Lemma play_value (st : ChessState) (oh th cc : Z) :
  exists st',
    play st oh th cc =
    Some (st', fst (fst (value_of (levels st) st oh th cc)),
          snd (fst (value_of (levels st) st oh th cc))) /\
    frame st st' /\
    (0 <= stack_depth st -> st' = upd st (snd (value_of (levels st) st oh th cc))).
Proof. unfold play. apply play_rec_value, enough_levels. Qed.

Lemma score_of_play (st : ChessState) (oh th cc : Z) :
  score_of (play st oh th cc) = fst (fst (value_of (levels st) st oh th cc)).
Proof. destruct (play_value st oh th cc) as (st' & -> & _). reflexivity. Qed.

Lemma search_moves_ext (r1 r2 : Z -> Z -> Z) (root : bool) (kcs : Z) (ms : list move) :
  (forall si di, r1 si di = r2 si di) ->
  forall bp bst,
  search_moves r1 root kcs ms bp bst = search_moves r2 root kcs ms bp bst.
Proof.
  intros E. induction ms as [|m ms IH]; intros bp bst; simpl; [done|].
  unfold move_score. rewrite E.
  destruct (captures_king m); [done|].
  destruct (_ >? bp); apply IH.
Qed.

(** A search node, in terms of [play] on the positions after its moves. *)
Lemma play_search_node (st : ChessState) (oh th cc : Z) :
  validating st = false ->
  exists st',
    play st oh th cc =
    Some (st', outcome_score (node_outcome st cc), outcome_rv (node_outcome st cc)) /\
    frame st st' /\
    (0 <= stack_depth st -> st' = upd st (outcome_best (node_outcome st cc))).
Proof.
  intros Hm.
  destruct (play_value st oh th cc) as (st' & Hp & Hf & Hu).
  exists st'.
  assert (value_of (levels st) st oh th cc =
          (outcome_score (node_outcome st cc), outcome_rv (node_outcome st cc),
           outcome_best (node_outcome st cc))) as E.
  { unfold value_of, levels, node_outcome. cbn [node_value].
    fold (king_capture_score st).
    unfold validating in Hm. rewrite Hm.
    match goal with
    | |- context [search_moves ?r _ _ _ _ _] =>
        rewrite (search_moves_ext r (reply_score st cc))
    end.
    - by destruct (search_moves _ _ _ _ _ _).
    - intros si di. unfold reply_score.
      destruct (stack_depth st <? depth_limit st) eqn:Hlt; [|done].
      apply Z.ltb_lt in Hlt.
      rewrite score_of_play.
      pose proof (levels_child st (moved_board (board st) si di) Hlt) as L.
      unfold levels in L at 1. injection L as L. rewrite L.
      reflexivity. }
  rewrite E in Hp, Hu. done.
Qed.

(** A validating pass, in terms of the moves it runs through. *)
Lemma play_validating (st : ChessState) (oh th cc : Z) :
  validating st = true ->
  play st oh th cc =
  Some (st,
        match scan_moves (king_capture_score st) oh th
                (pass_moves (board st) (enp st) cc) with
        | Some (s, _) => s
        | None => ILLEGAL_MOVE_SCORE
        end,
        match scan_moves (king_capture_score st) oh th
                (pass_moves (board st) (enp st) cc) with
        | Some (_, r) => r
        | None => 0
        end).
Proof.
  intros Hm. unfold play, levels. cbn [play_rec].
  by apply play_body_validating.
Qed.

(** ** The search restores what it touches *)

(** The reply to a move is searched on the position after it; its score does
    not depend on the move recorded so far. *)
Lemma play_child (st st1 : ChessState) (cc : Z) (b : list Z) :
  frame st st1 ->
  exists st' rv,
    play (child_state st1 b) (-1) (-1) cc =
    Some (st', score_of (play (child_state st b) (-1) (-1) cc), rv) /\
    frame (child_state st1 b) st' /\
    (0 <= stack_depth st -> st' = child_state st1 b).
Proof.
  intros Hf.
  pose proof (child_frame _ _ b Hf) as Hc.
  destruct (play_value (child_state st1 b) (-1) (-1) cc) as (st' & Hp & Hf' & Hu).
  rewrite score_of_play.
  assert (levels (child_state st1 b) = levels (child_state st b)) as EL.
  { destruct Hf as (f & t & ->). reflexivity. }
  rewrite EL, (value_of_frame _ _ _ _ _ _ Hc) in Hp, Hu.
  exists st'. eexists. split; [exact Hp|]. split; [exact Hf'|].
  intros H0.
  destruct (frame_fields _ _ Hf) as (_ & _ & _ & _ & Es).
  rewrite Hu by (unfold child_state; cbn; lia).
  unfold value_of. rewrite node_value_inner by (unfold child_state; cbn; lia).
  reflexivity.
Qed.

(** Lines 398-418 with [play] itself as the recursive call. *)
Lemma explore_play (st : ChessState) (cc si di ct : Z) :
  exists st',
    explore set_cell play cc st si di (cell (board st) si) ct =
    Some (st', entry piece_scores ct - reply_score st cc si di) /\
    frame st st' /\
    (0 <= stack_depth st -> st' = st).
Proof.
  destruct (explore_search play cc st
              (fun b => score_of (play (child_state st b) (-1) (-1)
                                    (Z.lxor cc COLOR_MASK)))
              (fun _ st1 b Hf => play_child st st1 (Z.lxor cc COLOR_MASK) b Hf)
              st None si di ct (at_node_entry st))
    as (st' & He & Hf & Hu).
  exists st'. split; [exact He|]. split; [exact Hf|exact Hu].
Qed.

(** [play] satisfies the equation of its body, with itself as the recursive
    call. *)
Lemma play_unfold (st : ChessState) (oh th cc : Z) :
  0 <= stack_depth st ->
  play st oh th cc = play_body set_cell play oh th cc st.
Proof.
  intros Hsd. destruct (validating st) eqn:Hm.
  - rewrite play_validating by done. symmetry. by apply play_body_validating.
  - destruct (play_search_node st oh th cc Hm) as (st1 & -> & _ & Hu1).
    destruct (play_body_search play oh th cc st Hm
                (fun b => score_of (play (child_state st b) (-1) (-1)
                                      (Z.lxor cc COLOR_MASK)))
                (fun _ st1 b Hf => play_child st st1 (Z.lxor cc COLOR_MASK) b Hf))
      as (st2 & -> & _ & Hu2).
    rewrite (Hu1 Hsd), (Hu2 Hsd). reflexivity.
Qed.

(** C3. Every move the search applies is undone exactly: after lines
    398-418 (make the move, search the reply, unmake the move) the board is
    the board before the move; and when [play] returns, the board and the en
    passant target are those of its entry. *)
Theorem play_restores_board (st : ChessState) (oh th cc : Z) :
  (forall si di ct,
     exists st' move_score,
       explore set_cell play cc st si di (cell (board st) si) ct =
       Some (st', move_score) /\
       board st' = board st) /\
  (exists st' score rv,
     play st oh th cc = Some (st', score, rv) /\
     board st' = board st /\ enp st' = enp st).
Proof.
  split.
  - intros si di ct.
    destruct (explore_play st cc si di ct) as (st' & He & Hf & _).
    destruct (frame_fields _ _ Hf) as (Eb & _). eauto.
  - destruct (play_value st oh th cc) as (st' & Hp & Hf & _).
    destruct (frame_fields _ _ Hf) as (Eb & _ & Ee & _). eauto 6.
Qed.

Lemma play_restores_board_witness :
  exists st' score rv,
    play (search_config initial_state) (-1) (-1) BLACK = Some (st', score, rv) /\
    board st' = board (search_config initial_state) /\
    enp st' = enp (search_config initial_state).
Proof.
  apply (play_restores_board (search_config initial_state) (-1) (-1) BLACK).
Defined.

(** ** Validation reads only *)

Lemma validating_config (st : ChessState) : validating (validate_config st) = true.
Proof. reflexivity. Qed.

(** C10. With [legal_move_check] set at depth zero, [play] returns the very
    state it was given, with a score and a return value that do not depend on
    what a store to the board or the recursive call would do: neither is
    ever used.  Hence [play_validate] returns with the board it received. *)
Theorem validation_is_read_only (st : ChessState) (oh th cc : Z) :
  legal_move_check st <> 0 ->
  stack_depth st = 0 ->
  (exists score rv,
     forall (store : list Z -> Z -> Z -> list Z)
            (rec : ChessState -> Z -> Z -> Z -> option (ChessState * Z * Z)),
       play_body store rec oh th cc st = Some (st, score, rv)) /\
  (exists st' score,
     play_validate st oh th cc = Some (st', score) /\ board st' = board st).
Proof.
  intros Hl Hs. split.
  - assert (validating st = true) as Hm.
    { unfold validating. rewrite Hs.
      destruct (legal_move_check st =? 0) eqn:E; [lia|done]. }
    do 2 eexists. intros store rec.
    apply (play_body_validating store rec oh th cc st Hm).
  - unfold play_validate.
    rewrite play_validating by apply validating_config.
    eauto.
Qed.

Lemma validation_is_read_only_witness :
  legal_move_check (validate_config initial_state) <> 0 /\
  stack_depth (validate_config initial_state) = 0 /\
  exists score rv,
    forall (store : list Z -> Z -> Z -> list Z)
           (rec : ChessState -> Z -> Z -> Z -> option (ChessState * Z * Z)),
      play_body store rec 0x71 0x52 WHITE (validate_config initial_state) =
      Some (validate_config initial_state, score, rv).
Proof.
  split; [vm_compute; discriminate|]. split; [reflexivity|].
  apply (validation_is_read_only (validate_config initial_state) 0x71 0x52 WHITE).
  - vm_compute; discriminate.
  - reflexivity.
Defined.

(** ** What the enumerator generates *)

(** Every target of a ray is on the board, passed the test of lines 341-369,
    and is recorded with the contents of its square. *)
Lemma ray_targets_valid (through : bool) (fuel : nat) (b : list Z)
    (ep cc mo mc : Z) (sl : bool) (md : Z) :
  forall di t,
  In t (ray_targets through fuel b ep cc mo mc sl md di) ->
  off_board (fst t) = false /\
  reaches_valid_move b ep cc mo mc (fst t) = true /\
  snd t = cell b (fst t).
Proof.
  induction fuel as [|fuel IH]; intros di t; cbn [ray_targets]; [done|].
  destruct (off_board (next_square mo md di)) eqn:Hoff; [done|].
  destruct (reaches_valid_move b ep cc mo mc (next_square mo md di)) eqn:Hv;
    [|done].
  cbn [negb]. intros [<-|H]; [done|].
  destruct (through || _); [by eapply IH|done].
Qed.

Lemma moves_valid (through : bool) (b : list Z) (ep cc : Z) (m : move) :
  In m (moves through b ep cc) ->
  exists mo mc sl,
    movement cc (cell b (fst (fst m))) = Some (mo, mc, sl) /\
    off_board (snd (fst m)) = false /\
    reaches_valid_move b ep cc mo mc (snd (fst m)) = true /\
    snd m = cell b (snd (fst m)).
Proof.
  unfold moves. rewrite in_flat_map. intros (si & _ & Hm).
  unfold piece_moves in Hm.
  destruct (negb _); [done|].
  destruct (movement cc (cell b si)) as [[[mo mc] sl]|] eqn:Hmv; [|done].
  rewrite in_flat_map in Hm. destruct Hm as (md & _ & Hm).
  rewrite in_map_iff in Hm. destruct Hm as (t & <- & Ht).
  apply ray_targets_valid in Ht as (Hoff & Hv & Hc).
  cbn [fst snd]. rewrite Hmv. eauto 8.
Qed.

(** That test lets through empty squares and enemy pieces only. *)
Lemma valid_target_cases (b : list Z) (ep cc mo mc di : Z) :
  reaches_valid_move b ep cc mo mc di = true ->
  Z.land (cell b di) PIECE_FULL_MASK = EMPTY \/
  get_piece_color (cell b di) <> cc.
Proof.
  unfold reaches_valid_move, get_piece_color.
  destruct (Z.land (cell b di) PIECE_FULL_MASK =? EMPTY) eqn:E.
  - intros _. left. by apply Z.eqb_eq.
  - intros H. right. apply andb_true_iff in H as [H _].
    apply negb_true_iff, Z.eqb_neq in H. exact H.
Qed.

Lemma type_of_masked (p : Z) :
  Z.land (Z.land p PIECE_FULL_MASK) PIECE_MASK = get_piece_type p.
Proof. unfold get_piece_type. rewrite <- Z.land_assoc. reflexivity. Qed.

(** A generated move never lands on a piece of the mover's colour, and a
    king it captures is the opponent's. *)
Lemma targets_are_not_friendly (through : bool) (b : list Z) (ep cc : Z) (m : move) :
  In m (moves through b ep cc) ->
  Z.land (snd m) PIECE_FULL_MASK = EMPTY \/ get_piece_color (snd m) <> cc.
Proof.
  intros H. apply moves_valid in H as (mo & mc & sl & _ & _ & Hv & ->).
  by eapply valid_target_cases.
Qed.

Lemma king_target_is_opposing (through : bool) (b : list Z) (ep cc : Z) (m : move) :
  In m (moves through b ep cc) ->
  captures_king m = true ->
  get_piece_color (snd m) <> cc.
Proof.
  intros H Hk. destruct (targets_are_not_friendly _ _ _ _ _ H) as [E|N]; [|done].
  unfold captures_king in Hk. apply Z.eqb_eq in Hk.
  rewrite <- type_of_masked, E in Hk. discriminate Hk.
Qed.

(** ** King capture *)

Lemma search_moves_king (reply : Z -> Z -> Z) (root : bool) (kcs : Z)
    (pre post : list move) (m : move) :
  captures_king m = true ->
  forall bp bst, exists bst',
    search_moves reply root kcs (pre ++ m :: post) bp bst = Stopped kcs 1 bst'.
Proof.
  intros Hk. induction pre as [|a pre IH]; intros bp bst; simpl.
  - rewrite Hk. eauto.
  - destruct (captures_king a); [eauto|].
    destruct (move_score reply a >? bp); apply IH.
Qed.

Lemma scan_moves_king (kcs oh th : Z) (pre post : list move) (m : move) :
  captures_king m = true ->
  forallb (fun m' => negb (is_pair oh th m')) pre = true ->
  scan_moves kcs oh th (pre ++ m :: post) = Some (kcs, 1).
Proof.
  intros Hk. induction pre as [|a pre IH]; simpl; intros Hp.
  - by rewrite Hk.
  - apply andb_true_iff in Hp as [Ha Hp].
    destruct (captures_king a); [done|].
    apply negb_true_iff in Ha. rewrite Ha. by apply IH.
Qed.

(** C2. When the pass of a node reaches a move onto a king, [play] returns
    at once: the iteration of the ray returns 78, or 156 when [stack_depth]
    is beyond [MAX_DEPTH_PLY1], and 1, whatever the best score so far, the
    store and the recursive call (neither is used, and the state is
    untouched); and so [play] returns that score at a node whose moves
    include a king capture, whatever the other moves are worth.  The king
    is the opponent's. *)
Theorem king_capture_dominates (st : ChessState) (oh th cc : Z) :
  king_capture_score st = (if stack_depth st >? 4 then 156 else 78) /\
  (forall store rec fuel pao si mo mc sl md bp di,
     off_board (next_square mo md di) = false ->
     reaches_valid_move (board st) (enp st) cc mo mc (next_square mo md di) = true ->
     get_piece_type (cell (board st) (next_square mo md di)) = KING ->
     ray store rec oh th cc (S fuel) pao si mo mc sl md st bp di =
     Some (Return st (king_capture_score st) 1)) /\
  (forall pre m post,
     moves (validating st) (board st) (enp st) cc = pre ++ m :: post ->
     captures_king m = true ->
     (validating st = true ->
      forallb (fun m' => negb (is_pair oh th m')) pre = true) ->
     get_piece_color (snd m) <> cc /\
     exists st',
       play st oh th cc = Some (st', king_capture_score st, 1) /\
       board st' = board st).
Proof.
  split; [reflexivity|]. split.
  - intros store rec fuel pao si mo mc sl md bp di Hoff Hv Hk.
    cbn [ray]. rewrite Hoff, Hv. cbn [negb]. rewrite Hk. reflexivity.
  - intros pre m post Hms Hk Hp.
    split.
    { apply (king_target_is_opposing (validating st) (board st) (enp st)); [|done].
      rewrite Hms. apply in_or_app. right. by left. }
    destruct (validating st) eqn:Hm.
    + rewrite play_validating by done.
      unfold pass_moves. rewrite Hms.
      rewrite scan_moves_king by auto. eauto.
    + destruct (play_search_node st oh th cc Hm) as (st' & Hq & Hf & _).
      unfold node_outcome, gen_moves in Hq. rewrite Hms in Hq.
      destruct (search_moves_king (reply_score st cc) (stack_depth st =? 0)
                  (king_capture_score st) pre post m Hk MIN_SCORE None)
        as [bst' E].
      rewrite E in Hq. cbn [outcome_score outcome_rv] in Hq.
      destruct (frame_fields _ _ Hf) as (Eb & _). eauto.
Qed.

Lemma king_capture_dominates_witness :
  get_piece_color (snd (0x40, 0x00, 0x06)) <> WHITE /\
  exists st',
    play (search_config rook_takes_king) (-1) (-1) WHITE = Some (st', 78, 1) /\
    board st' = board (search_config rook_takes_king).
Proof.
  apply (proj2 (proj2 (king_capture_dominates
                         (search_config rook_takes_king) (-1) (-1) WHITE))
           [(0x40, 0x30, 0); (0x40, 0x20, 0); (0x40, 0x10, 0)]
           (0x40, 0x00, 0x06)
           [(0x40, 0x50, 0); (0x40, 0x60, 0); (0x40, 0x70, 0); (0x40, 0x41, 0);
            (0x40, 0x42, 0); (0x40, 0x43, 0); (0x40, 0x44, 0); (0x40, 0x45, 0);
            (0x40, 0x46, 0); (0x40, 0x47, 0); (0x74, 0x64, 0); (0x74, 0x73, 0);
            (0x74, 0x75, 0); (0x74, 0x65, 0); (0x74, 0x63, 0)]).
  - vm_compute; reflexivity.
  - reflexivity.
  - vm_compute; discriminate.
Defined.

(** ** The score of a search node *)



Section Scores.

Variable reply : Z -> Z -> Z.
Variable root : bool.
Variable kcs : Z.



End Scores.






(** ** Validation *)

Lemma ray_targets_through (fuel : nat) (b : list Z) (ep cc mo mc : Z)
    (sl : bool) (md : Z) :
  forall di t,
  In t (ray_targets false fuel b ep cc mo mc sl md di) ->
  In t (ray_targets true fuel b ep cc mo mc sl md di).
Proof.
  induction fuel as [|fuel IH]; intros di t; cbn [ray_targets]; [done|].
  destruct (off_board _); [done|].
  destruct (negb _); [done|].
  cbn [orb]. intros [E|H]; [by left|right].
  destruct (sl && _); [by apply IH|done].
Qed.

(** Every move a search node generates is one a validating pass runs
    through. *)
Lemma gen_in_pass (b : list Z) (ep cc : Z) (m : move) :
  In m (gen_moves b ep cc) -> In m (pass_moves b ep cc).
Proof.
  unfold gen_moves, pass_moves, moves. rewrite !in_flat_map.
  intros (si & Hsi & Hm). exists si. split; [done|].
  unfold piece_moves in *.
  destruct (negb _); [done|].
  destruct (movement cc (cell b si)) as [[[mo mc] sl]|]; [|done].
  rewrite in_flat_map in *. destruct Hm as (md & Hmd & Hm).
  exists md. split; [done|].
  rewrite in_map_iff in *. destruct Hm as (t & Et & Ht).
  exists t. split; [done|]. by apply ray_targets_through.
Qed.

Section Scan.

Variables kcs oh th : Z.

Lemma scan_moves_values (ms : list move) :
  scan_moves kcs oh th ms = Some (kcs, 1) \/
  scan_moves kcs oh th ms = Some (0, 0) \/
  scan_moves kcs oh th ms = None.
Proof.
  induction ms as [|m ms IH]; simpl; [auto|].
  destruct (captures_king m); [auto|].
  destruct (is_pair oh th m); auto.
Qed.

Lemma scan_moves_none (ms : list move) :
  scan_moves kcs oh th ms = None <->
  forallb (fun m => negb (captures_king m) && negb (is_pair oh th m)) ms = true.
Proof.
  induction ms as [|m ms IH]; simpl; [done|].
  destruct (captures_king m); simpl; [done|].
  destruct (is_pair oh th m); simpl; [done|]. exact IH.
Qed.

Lemma scan_moves_found (ms : list move) :
  existsb (is_pair oh th) ms = true -> scan_moves kcs oh th ms <> None.
Proof.
  induction ms as [|m ms IH]; simpl; [done|].
  destruct (captures_king m); [done|].
  destruct (is_pair oh th m); simpl; [done|]. exact IH.
Qed.

Lemma scan_moves_no_king (ms : list move) :
  forallb (fun m => negb (captures_king m)) ms = true ->
  scan_moves kcs oh th ms <> Some (kcs, 1) \/ kcs = 0.
Proof.
  induction ms as [|m ms IH]; simpl; [by left|].
  destruct (captures_king m); simpl; [done|].
  destruct (is_pair oh th m); simpl; [|exact IH].
  intros _. destruct (decide (kcs = 0)) as [->|N]; [by right|left]. congruence.
Qed.

Lemma scan_moves_king_first (ms : list move) :
  scan_moves kcs oh th ms = Some (kcs, 1) <->
  exists pre m post,
    ms = pre ++ m :: post /\
    captures_king m = true /\
    forallb (fun m' => negb (captures_king m') && negb (is_pair oh th m')) pre = true.
Proof.
  split.
  - induction ms as [|a ms IH]; simpl; [done|].
    destruct (captures_king a) eqn:Hk.
    + intros _. by exists [], a, ms.
    + destruct (is_pair oh th a) eqn:Hp; [intros H; discriminate H|].
      intros H. destruct (IH H) as (pre & m & post & -> & Hm & Hpre).
      exists (a :: pre), m, post. simpl. by rewrite Hk, Hp.
  - intros (pre & m & post & -> & Hm & Hpre).
    induction pre as [|a pre IH]; simpl in *.
    + by rewrite Hm.
    + apply andb_true_iff in Hpre as [Ha Hpre].
      apply andb_true_iff in Ha as [Hk Hp].
      apply negb_true_iff in Hk, Hp. rewrite Hk, Hp. by apply IH.
Qed.

End Scan.

Lemma existsb_incl (f : move -> bool) (l1 l2 : list move) :
  (forall m, In m l1 -> In m l2) -> existsb f l1 = true -> existsb f l2 = true.
Proof.
  intros Hi. rewrite !existsb_exists. intros (m & Hm & Hf). eauto.
Qed.

(** C1, as stated, fails: with the white rook attacking the black king,
    validating the pair a4-b3, which no node generates, returns 78 and not
    the sentinel -127. *)
Lemma validate_verdict_counterexample :
  option_map snd (play_validate rook_takes_king 0x40 0x51 WHITE) = Some 78 /\
  existsb (is_pair 0x40 0x51)
          (gen_moves (board rook_takes_king) (enp rook_takes_king) WHITE) = false.
Proof. vm_compute. auto. Qed.

(** C1, amended. [play_validate] returns 0, 78 or the sentinel -127.  For a
    pair among the moves the enumerator generates for the colour it returns
    0 or 78, never the sentinel, and 0 when the pass meets no move onto a
    king.  It returns 78 exactly when the pass meets a move onto a king
    before the pair, and the sentinel exactly when the pass ends without
    meeting the pair or a move onto a king. *)
Theorem validate_verdict (st : ChessState) (origin target cc : Z) :
  let gen := gen_moves (board st) (enp st) cc in
  let pass := pass_moves (board st) (enp st) cc in
  exists score,
    play_validate st origin target cc = Some (validate_config st, score) /\
    (score = 0 \/ score = KING_CAPTURE_SCORE \/ score = ILLEGAL_MOVE_SCORE) /\
    (existsb (is_pair origin target) gen = true ->
       score = 0 \/ score = KING_CAPTURE_SCORE) /\
    (existsb (is_pair origin target) gen = true ->
       forallb (fun m => negb (captures_king m)) pass = true ->
       score = 0) /\
    (score = KING_CAPTURE_SCORE <->
       exists pre m post,
         pass = pre ++ m :: post /\
         captures_king m = true /\
         forallb (fun m' => negb (captures_king m') &&
                            negb (is_pair origin target m')) pre = true) /\
    (score = ILLEGAL_MOVE_SCORE <->
       forallb (fun m => negb (captures_king m) && negb (is_pair origin target m))
               pass = true).
Proof.
  intros gen pass. unfold play_validate.
  rewrite play_validating by apply validating_config.
  change (board (validate_config st)) with (board st).
  change (enp (validate_config st)) with (enp st).
  change (king_capture_score (validate_config st)) with KING_CAPTURE_SCORE.
  fold pass.
  pose proof (scan_moves_none KING_CAPTURE_SCORE origin target pass) as Hnone.
  pose proof (scan_moves_found KING_CAPTURE_SCORE origin target pass) as Hfound.
  pose proof (scan_moves_no_king KING_CAPTURE_SCORE origin target pass) as Hking.
  pose proof (scan_moves_king_first KING_CAPTURE_SCORE origin target pass) as Hfirst.
  assert (existsb (is_pair origin target) gen = true ->
          existsb (is_pair origin target) pass = true) as Hincl.
  { apply existsb_incl. intros m. apply gen_in_pass. }
  destruct (scan_moves_values KING_CAPTURE_SCORE origin target pass)
    as [E|[E|E]]; rewrite E in *; clearbody gen pass; eexists;
    (split; [reflexivity|]).
  - split; [right; left; reflexivity|].
    split; [intros _; right; reflexivity|]. split.
    + intros _ Hk. destruct (Hking Hk) as [N|N]; [congruence|discriminate N].
    + split; [split; [intros _; by apply Hfirst|reflexivity]|].
      split; [discriminate|]. intros F. apply Hnone in F. discriminate.
  - split; [left; reflexivity|].
    split; [intros _; left; reflexivity|]. split; [reflexivity|].
    split; [split; [discriminate|intros F; apply Hfirst in F; discriminate]|].
    split; [discriminate|]. intros F. apply Hnone in F. discriminate.
  - split; [right; right; reflexivity|]. split.
    + intros G. destruct (Hfound (Hincl G)). reflexivity.
    + split.
      * intros G. destruct (Hfound (Hincl G)). reflexivity.
      * split; [split; [discriminate|intros F; apply Hfirst in F; discriminate]|].
        split; [intros _; apply Hnone; reflexivity|reflexivity].
Qed.

Lemma validate_verdict_witness :
  exists score,
    play_validate initial_state 0x71 0x52 WHITE =
      Some (validate_config initial_state, score) /\
    (score = 0 \/ score = KING_CAPTURE_SCORE).
Proof.
  destruct (validate_verdict initial_state 0x71 0x52 WHITE)
    as (score & Hp & _ & Hg & _).
  exists score. split; [exact Hp|]. apply Hg. vm_compute. reflexivity.
Defined.

(** ** [make_move]: castling *)

Lemma load_in (b : list Z) (i : Z) : 0 <= i < 128 -> load b i = Some (cell b i).
Proof.
  intros H. unfold load, in_array, BOARD_SIZE.
  destruct (0 <=? i) eqn:A; [|lia]. destruct (i <? 128) eqn:B; [done|lia].
Qed.

Lemma store_at_in (b : list Z) (i v : Z) :
  0 <= i < 128 -> store_at b i v = Some (set_cell b i v).
Proof.
  intros H. unfold store_at, in_array, BOARD_SIZE.
  destruct (0 <=? i) eqn:A; [|lia]. destruct (i <? 128) eqn:B; [done|lia].
Qed.

Ltac make_move_steps :=
  repeat (first [rewrite load_in by lia | rewrite store_at_in by lia];
          cbn [mbind option_bind]).

Ltac read_cells :=
  repeat first
    [ rewrite cell_set_cell_other by lia
    | rewrite cell_set_cell_same by (rewrite ?length_set_cell; lia) ].

(** [make_move] of a king from [from] to [from + 2] or [from - 2], when
    the cells it touches are inside the array: the cells relocated are those
    at fixed offsets from the target, [to + 1] to [to - 1], resp. [to - 2] to
    [to + 1], whatever they hold. *)
Lemma make_move_king_two_files (st : ChessState) (from : Z) :
  length (board st) = 128%nat ->
  get_piece_type (cell (board st) from) = KING ->
  (0 <= from -> from + 3 < 128 ->
   make_move st from (from + 2) =
   Some (set_enp (set_board st
      (set_cell (set_cell (moved_board (board st) from (from + 2))
                   (from + 1) (cell (board st) (from + 3)))
                (from + 3) EMPTY)) 0)) /\
  (0 <= from - 4 -> from < 128 ->
   make_move st from (from - 2) =
   Some (set_enp (set_board st
      (set_cell (set_cell (moved_board (board st) from (from - 2))
                   (from - 1) (cell (board st) (from - 4)))
                (from - 4) EMPTY)) 0)).
Proof.
  intros Hlen Hk.
  assert ((get_piece_type (cell (board st) from) =? PAWN) = false) as Hp
    by (rewrite Hk; reflexivity).
  assert ((get_piece_type (cell (board st) from) =? KING) = true) as Hk'
    by (rewrite Hk; reflexivity).
  split; intros Hlo Hhi; unfold make_move, moved_board.
  - make_move_steps.
    rewrite Hp, Hk'. cbn [mbind option_bind].
    unfold castling_effects.
    replace (from + 2 - from) with 2 by lia. cbn [Z.eqb Pos.eqb].
    replace (from + 2 - 1) with (from + 1) by lia.
    replace (from + 2 + 1) with (from + 3) by lia.
    make_move_steps. read_cells. reflexivity.
  - make_move_steps.
    rewrite Hp, Hk'. cbn [mbind option_bind].
    unfold castling_effects.
    replace (from - 2 - from) with (-2) by lia. cbn [Z.eqb Pos.eqb].
    replace (from - 2 + 1) with (from - 1) by lia.
    replace (from - 2 - 2) with (from - 4) by lia.
    make_move_steps. read_cells. reflexivity.
Qed.

(** The claim fails for a king that is not on file e: with the white king
    on d1 and a white rook on h1, [make_move] d1-f1 leaves the rook on h1 and
    the square the king passed over, e1, empty (it relocates the empty g1);
    and for the black king on d8 with a rook on a8, [make_move] d8-b8 reads
    [board[-1]], outside the array. *)
Lemma castling_relocates_rook_counterexample :
  get_piece_type (cell (board king_on_d1) 0x73) = KING /\
  get_piece_type (cell (board king_on_d1) 0x77) = ROOK /\
  option_map (fun st' => (cell (board st') 0x75, cell (board st') 0x73,
                          cell (board st') 0x74, cell (board st') 0x77))
             (make_move king_on_d1 0x73 0x75) =
    Some (0x0E, EMPTY, EMPTY, 0x1A) /\
  get_piece_type (cell (board king_on_d8) 0x03) = KING /\
  get_piece_type (cell (board king_on_d8) 0x00) = ROOK /\
  make_move king_on_d8 0x03 0x01 = None.
Proof. vm_compute. repeat split; reflexivity. Qed.

(** C9, amended. On a 128-cell board, [make_move] of a king from a square
    of file e ([from = 16 * row + 4], [row] in 0..7) two squares along its
    row relocates the contents of the corner of that row on the side the king
    moved toward (file h, [from + 3], for [to = from + 2]; file a,
    [from - 4], for [to = from - 2]) to the square the king passed through
    ([from + 1], resp. [from - 1]): a rook standing on the corner is on that
    square afterwards, cell value unchanged.  The corner becomes empty, the
    target holds the king with its moved bit cleared, the origin is empty, no
    other cell changes and [enp] is 0. *)
Theorem castling_relocates_rook (st : ChessState) (row from to : Z) :
  length (board st) = 128%nat ->
  0 <= row < 8 ->
  from = 16 * row + 4 ->
  get_piece_type (cell (board st) from) = KING ->
  (to = from + 2 ->
   from + 3 = 16 * row + 7 /\
   exists st',
     make_move st from to = Some st' /\
     cell (board st') (from + 1) = cell (board st) (from + 3) /\
     (get_piece_type (cell (board st) (from + 3)) = ROOK ->
      get_piece_type (cell (board st') (from + 1)) = ROOK) /\
     cell (board st') (from + 3) = EMPTY /\
     cell (board st') to = Z.land (cell (board st) from) PIECE_FULL_MASK /\
     cell (board st') from = EMPTY /\
     (forall i, 0 <= i -> i <> from -> i <> from + 1 -> i <> to -> i <> from + 3 ->
        cell (board st') i = cell (board st) i) /\
     enp st' = 0) /\
  (to = from - 2 ->
   from - 4 = 16 * row + 0 /\
   exists st',
     make_move st from to = Some st' /\
     cell (board st') (from - 1) = cell (board st) (from - 4) /\
     (get_piece_type (cell (board st) (from - 4)) = ROOK ->
      get_piece_type (cell (board st') (from - 1)) = ROOK) /\
     cell (board st') (from - 4) = EMPTY /\
     cell (board st') to = Z.land (cell (board st) from) PIECE_FULL_MASK /\
     cell (board st') from = EMPTY /\
     (forall i, 0 <= i -> i <> from -> i <> from - 1 -> i <> to -> i <> from - 4 ->
        cell (board st') i = cell (board st) i) /\
     enp st' = 0).
Proof.
  intros Hlen Hrow Hfrom Hk.
  destruct (make_move_king_two_files st from Hlen Hk) as [Hh Ha].
  split; intros ->; (split; [lia|]).
  - rewrite Hh by lia. eexists. split; [reflexivity|].
    cbn [board enp set_enp set_board]. unfold moved_board, EMPTY.
    assert (cell (set_cell (set_cell (set_cell (set_cell (board st) (from + 2)
              (Z.land (cell (board st) from) PIECE_FULL_MASK)) from 0) (from + 1)
              (cell (board st) (from + 3))) (from + 3) 0) (from + 1) =
            cell (board st) (from + 3)) as E by (read_cells; reflexivity).
    split; [exact E|]. split; [by rewrite E|].
    repeat split; try (read_cells; reflexivity).
    intros i H0 H1 H2 H3 H4. read_cells. reflexivity.
  - rewrite Ha by lia. eexists. split; [reflexivity|].
    cbn [board enp set_enp set_board]. unfold moved_board, EMPTY.
    assert (cell (set_cell (set_cell (set_cell (set_cell (board st) (from - 2)
              (Z.land (cell (board st) from) PIECE_FULL_MASK)) from 0) (from - 1)
              (cell (board st) (from - 4))) (from - 4) 0) (from - 1) =
            cell (board st) (from - 4)) as E by (read_cells; reflexivity).
    split; [exact E|]. split; [by rewrite E|].
    repeat split; try (read_cells; reflexivity).
    intros i H0 H1 H2 H3 H4. read_cells. reflexivity.
Qed.

Lemma castling_relocates_rook_witness :
  0x74 + 3 = 16 * 7 + 7 /\
  exists st',
    make_move castle_ready 0x74 0x76 = Some st' /\
    cell (board st') (0x74 + 1) = cell (board castle_ready) (0x74 + 3) /\
    (get_piece_type (cell (board castle_ready) (0x74 + 3)) = ROOK ->
     get_piece_type (cell (board st') (0x74 + 1)) = ROOK) /\
    cell (board st') (0x74 + 3) = EMPTY /\
    cell (board st') 0x76 = Z.land (cell (board castle_ready) 0x74) PIECE_FULL_MASK /\
    cell (board st') 0x74 = EMPTY /\
    (forall i, 0 <= i -> i <> 0x74 -> i <> 0x74 + 1 -> i <> 0x76 -> i <> 0x74 + 3 ->
       cell (board st') i = cell (board castle_ready) i) /\
    enp st' = 0.
Proof.
  apply (proj1 (castling_relocates_rook castle_ready 7 0x74 0x76
                  eq_refl ltac:(lia) eq_refl eq_refl)).
  reflexivity.
Defined.

(** ** Where the code departs from the rules it states *)

(** The test of lines 341-369 for a pawn: [movement_count] is 4 for every
    pawn, so the test [movement_count < 3] of line 344 never holds, and the
    direction is not looked at.  Whatever the displacement, an empty target
    passes only when it is the en passant target, and an occupied one
    whenever it holds an enemy piece. *)
Lemma pawn_target_rule (b : list Z) (ep cc mo di : Z) :
  16 <= mo ->
  reaches_valid_move b ep cc mo 4 di =
  if Z.land (cell b di) PIECE_FULL_MASK =? EMPTY
  then di =? ep
  else negb (Z.land (cell b di) COLOR_MASK =? cc) &&
       (Z.land (Z.land (cell b di) PIECE_FULL_MASK) PIECE_MASK <? 7).
Proof.
  intros H. unfold reaches_valid_move.
  assert ((16 <=? mo) = true) as -> by lia. reflexivity.
Qed.

(** C5: the black pawn's only generated move is the straight step (-16) onto
    the square the white pawn stands on. *)
Lemma pawn_captures_straight_ahead :
  gen_moves (board pawns_face_to_face) (enp pawns_face_to_face) BLACK =
    [(0x33, 0x23, 0x09)] /\
  0x23 - 0x33 = entry displacement (16 + 2) /\
  Z.land (cell (board pawns_face_to_face) 0x23) PIECE_FULL_MASK <> EMPTY.
Proof. vm_compute. repeat split; discriminate. Qed.

(** C6: from the initial position the pass for White ends without meeting
    d2-d4, and [play_validate] returns the sentinel; [make_move] of d2-d4
    sets the en passant target to d4. *)
Lemma d2d4_is_rejected :
  option_map snd (play_validate initial_state 0x63 0x43 WHITE) =
    Some ILLEGAL_MOVE_SCORE /\
  existsb (is_pair 0x63 0x43)
          (pass_moves (board initial_state) (enp initial_state) WHITE) = false /\
  option_map enp (make_move initial_state 0x63 0x43) = Some 0x43.
Proof. vm_compute. repeat split; reflexivity. Qed.

(** Along one direction a search node generates at most one target for a
    piece that does not slide. *)
Lemma stepper_one_target (fuel : nat) (b : list Z) (ep cc mo mc md di : Z) :
  (length (ray_targets false fuel b ep cc mo mc false md di) <= 1)%nat.
Proof.
  destruct fuel as [|fuel]; cbn [ray_targets]; [simpl; lia|].
  destruct (off_board _); [simpl; lia|].
  destruct (negb _); simpl; lia.
Qed.

(** Along one direction a search node stops at the first occupied target:
    every target but the last is an empty square. *)
Lemma slider_stops_at_piece (fuel : nat) (b : list Z) (ep cc mo mc : Z)
    (sl : bool) (md : Z) :
  forall di pre t post,
  ray_targets false fuel b ep cc mo mc sl md di = pre ++ t :: post ->
  post <> [] ->
  Z.land (snd t) PIECE_FULL_MASK = EMPTY.
Proof.
  induction fuel as [|fuel IH]; intros di pre t post; cbn [ray_targets].
  - by destruct pre.
  - destruct (off_board _); [by destruct pre|].
    destruct (negb _); [by destruct pre|].
    cbn [orb].
    destruct (sl && (Z.land _ PIECE_FULL_MASK =? EMPTY)) eqn:E.
    + destruct pre as [|p pre]; cbn [app]; intros H Hpost.
      * injection H as <- _. cbn [snd].
        apply andb_true_iff in E as [_ E]. by apply Z.eqb_eq in E.
      * injection H as _ H. by eapply IH.
    + destruct pre as [|p pre]; cbn [app]; intros H Hpost.
      * injection H as _ H. by subst post.
      * injection H as _ H. by destruct pre.
Qed.

(** C7: when validating, the knight on b1 is carried on along the direction
    -31: c3, d5 and, through nothing but the repetition of the step, the
    black pawn on e7; b1-d5 is accepted though no search node generates
    it. *)
Lemma validation_lets_knight_slide :
  option_map snd (play_validate initial_state 0x71 0x33 WHITE) = Some 0 /\
  map fst (ray_targets true ray_fuel (board initial_state) (enp initial_state)
             WHITE 0 8 false 1 0x71) = [0x52; 0x33; 0x14] /\
  map fst (ray_targets false ray_fuel (board initial_state) (enp initial_state)
             WHITE 0 8 false 1 0x71) = [0x52] /\
  movement WHITE (cell (board initial_state) 0x71) = Some (0, 8, false) /\
  existsb (is_pair 0x71 0x33)
          (gen_moves (board initial_state) (enp initial_state) WHITE) = false.
Proof. vm_compute. repeat split; reflexivity. Qed.

(** C8: after d2-d4 the en passant target is d4 itself, where the pawn
    stands.  The black pawn's diagonal move onto d4 is accepted at once, and
    [make_move] then changes d4 and e3 only; after a knight move by each
    side the target is cleared, and the same move is accepted all the same
    and is generated by a search node. *)
Lemma en_passant_window_stays_open :
  option_map enp after_double_advance = Some 0x43 /\
  option_map (fun st => cell (board st) 0x43) after_double_advance = Some 0x09 /\
  (st ← after_double_advance; option_map snd (play_validate st 0x54 0x43 BLACK))
    = Some 0 /\
  (st ← after_double_advance; st' ← make_move st 0x54 0x43;
   Some (filter (fun i => negb (cell (board st) i =? cell (board st') i))
                (zrange 128 0)))
    = Some [0x43; 0x54] /\
  option_map enp two_moves_later = Some 0 /\
  (st ← two_moves_later; option_map snd (play_validate st 0x54 0x43 BLACK))
    = Some 0 /\
  (st ← two_moves_later;
   Some (existsb (is_pair 0x54 0x43) (gen_moves (board st) (enp st) BLACK)))
    = Some true.
Proof. vm_compute. repeat split; reflexivity. Qed.

(** * Further properties of the code *)

(** ** Squares *)

Lemma forallb_zrange (f : Z -> bool) (n : nat) (i0 : Z) :
  forallb f (zrange n i0) = true ->
  forall i, i0 <= i < i0 + Z.of_nat n -> f i = true.
Proof.
  intros H i Hi. rewrite forallb_forall in H. apply H. by apply in_zrange.
Qed.

Lemma on_board_range (pos : Z) : on_board pos = true -> 0 <= pos < 128.
Proof.
  unfold on_board, BOARD_SIZE. intros H.
  apply andb_true_iff in H as [H H2]. apply andb_true_iff in H as [_ H1]. lia.
Qed.

Lemma on_board_row_col (pos : Z) :
  on_board pos = true <->
  exists r c, 0 <= r < 8 /\ 0 <= c < 8 /\ pos = 16 * r + c.
Proof.
  split.
  - intros H. pose proof (on_board_range pos H) as R.
    assert (forallb (fun i => implb (on_board i) ((i / 16 <? 8) && (i mod 16 <? 8)))
                    (zrange 128 0) = true) as T by (vm_compute; reflexivity).
    pose proof (forallb_zrange _ _ _ T pos ltac:(lia)) as P. cbv beta in P.
    rewrite H in P. cbn [implb] in P. apply andb_true_iff in P as [P1 P2].
    exists (pos / 16), (pos mod 16).
    pose proof (Z.div_mod pos 16 ltac:(lia)).
    pose proof (Z.mod_pos_bound pos 16 ltac:(lia)).
    assert (0 <= pos / 16) by (apply Z.div_pos; lia). lia.
  - intros (r & c & Hr & Hc & ->).
    assert (forallb (fun r => forallb (fun c => on_board (16 * r + c)) (zrange 8 0))
                    (zrange 8 0) = true) as T by (vm_compute; reflexivity).
    pose proof (forallb_zrange _ _ _ T r ltac:(lia)) as P. cbv beta in P.
    exact (forallb_zrange _ _ _ P c ltac:(lia)).
Qed.

Lemma get_square_on_board (st : ChessState) (pos : Z) :
  get_square st pos = if on_board pos then cell (board st) pos else FRONTIER.
Proof.
  unfold get_square, on_board, is_valid_square.
  destruct (Z.land pos 136 =? 0), (0 <=? pos) eqn:A, (pos <? BOARD_SIZE) eqn:B,
    (pos <? 0) eqn:C, (BOARD_SIZE <=? pos) eqn:D; cbn; try reflexivity; lia.
Qed.

(** X1. [get_square] reads the cell of [pos] exactly when [pos] is
    [16 * row + col] with row and column in 0..7; for every other [pos],
    negative or beyond the array included, it returns [FRONTIER] without
    reading. *)
Theorem get_square_reads_the_board_only (st : ChessState) (pos : Z) :
  (forall r c, 0 <= r < 8 -> 0 <= c < 8 -> pos = 16 * r + c ->
     get_square st pos = cell (board st) pos) /\
  ((forall r c, 0 <= r < 8 -> 0 <= c < 8 -> pos <> 16 * r + c) ->
     get_square st pos = FRONTIER).
Proof.
  rewrite get_square_on_board. split.
  - intros r c Hr Hc E.
    assert (on_board pos = true) as -> by (apply on_board_row_col; eauto).
    reflexivity.
  - intros H. destruct (on_board pos) eqn:E; [|reflexivity].
    apply on_board_row_col in E as (r & c & Hr & Hc & E). by destruct (H r c).
Qed.

Lemma get_square_reads_the_board_only_witness :
  get_square initial_state 0x74 = 0x1E /\ get_square initial_state 256 = FRONTIER.
Proof.
  pose proof (get_square_reads_the_board_only initial_state 0x74) as [H1 _].
  pose proof (get_square_reads_the_board_only initial_state 256) as [_ H2].
  split.
  - apply (H1 7 4); lia.
  - apply H2. intros r c Hr Hc. lia.
Defined.

(** X2. On a 128-cell board, reading a square after [set_square] of a
    byte gives the value written when it is the square written and that
    square is on the board, and what was there before otherwise. *)
Theorem set_square_then_get_square (st : ChessState) (pos v q : Z) :
  length (board st) = 128%nat ->
  0 <= v < 256 ->
  get_square (set_square st pos v) q =
  if (q =? pos) && on_board pos then v else get_square st q.
Proof.
  intros Hlen _. rewrite !get_square_on_board. unfold set_square.
  change (is_valid_square pos && (0 <=? pos) && (pos <? BOARD_SIZE))
    with (on_board pos).
  destruct (on_board pos) eqn:Hp; [|by rewrite andb_false_r].
  rewrite andb_true_r. cbn [board set_board].
  pose proof (on_board_range pos Hp) as Rp.
  destruct (q =? pos) eqn:E.
  - apply Z.eqb_eq in E. subst q. rewrite Hp.
    apply cell_set_cell_same. lia.
  - apply Z.eqb_neq in E. destruct (on_board q) eqn:Hq; [|reflexivity].
    pose proof (on_board_range q Hq). apply cell_set_cell_other. lia.
Qed.

Lemma set_square_then_get_square_witness :
  get_square (set_square initial_state 0x43 0x09) 0x43 =
  if (0x43 =? 0x43) && on_board 0x43 then 0x09 else get_square initial_state 0x43.
Proof. apply (set_square_then_get_square initial_state 0x43 0x09 0x43); [reflexivity|lia]. Defined.

Lemma wf_board_set_cell (b : list Z) (pos v : Z) :
  wf_board b -> on_board pos = true -> proper_cell v = true ->
  wf_board (set_cell b pos v).
Proof.
  intros [Hlen Hc] Hp Hv. split; [by rewrite length_set_cell|].
  intros i Hi. pose proof (on_board_range pos Hp).
  destruct (decide (i = pos)) as [->|N].
  - rewrite Hp, cell_set_cell_same by lia. exact Hv.
  - rewrite cell_set_cell_other by lia. by apply Hc.
Qed.

(** X3. [set_square] keeps a board well formed whatever the position it is
    given: it never writes a frontier cell nor outside the array. *)
Theorem set_square_keeps_board_well_formed (st : ChessState) (pos v : Z) :
  wf_board (board st) ->
  proper_cell v = true ->
  wf_board (board (set_square st pos v)) /\
  (on_board pos = false -> set_square st pos v = st).
Proof.
  intros Hwf Hv. unfold set_square.
  change (is_valid_square pos && (0 <=? pos) && (pos <? BOARD_SIZE))
    with (on_board pos).
  destruct (on_board pos) eqn:Hp; [|done].
  split; [|done]. cbn [board set_board]. by apply wf_board_set_cell.
Qed.

(** ** Coordinates and their text *)

Lemma shiftl_4 (d : Z) : Z.shiftl d 4 = 16 * d.
Proof. rewrite Z.shiftl_mul_pow2 by lia. change (2 ^ 4) with 16. lia. Qed.

Lemma key_to_coord_value (l d : Z) :
  key_to_coord l d = Z.land l 15 + 127 - 16 * Z.land d 15.
Proof. unfold key_to_coord, read_key. by rewrite shiftl_4. Qed.

(** X4. A square of the board, written by [position_to_algebraic] and read
    back by [key_to_coord], is the same square; the text is a letter A..H
    followed by a digit 1..8. *)
Theorem algebraic_text_reads_back (pos : Z) :
  on_board pos = true ->
  key_to_coord (fst (position_to_algebraic pos)) (snd (position_to_algebraic pos)) = pos /\
  65 <= fst (position_to_algebraic pos) <= 72 /\
  49 <= snd (position_to_algebraic pos) <= 56.
Proof.
  intros H. pose proof (on_board_range pos H) as R.
  assert (forallb (fun i => implb (on_board i)
            ((key_to_coord (fst (position_to_algebraic i))
                           (snd (position_to_algebraic i)) =? i) &&
             (65 <=? fst (position_to_algebraic i)) &&
             (fst (position_to_algebraic i) <=? 72) &&
             (49 <=? snd (position_to_algebraic i)) &&
             (snd (position_to_algebraic i) <=? 56)))
          (zrange 128 0) = true) as T by (vm_compute; reflexivity).
  pose proof (forallb_zrange _ _ _ T pos ltac:(lia)) as P. cbv beta in P.
  rewrite H in P. cbn [implb] in P.
  repeat (apply andb_true_iff in P as [P ?]). lia.
Qed.

Lemma algebraic_text_reads_back_witness :
  key_to_coord (fst (position_to_algebraic 0x63)) (snd (position_to_algebraic 0x63)) = 0x63 /\
  65 <= fst (position_to_algebraic 0x63) <= 72 /\
  49 <= snd (position_to_algebraic 0x63) <= 56.
Proof. apply (algebraic_text_reads_back 0x63). reflexivity. Defined.

(** X5. Whatever the two keys, [key_to_coord] returns a number between -113
    and 142; it is a square of the board exactly when the low four bits of
    both keys are in 1..8 (letters A..H or a..h, digits 1..8, and every other
    key with such low bits), and then [position_to_algebraic] gives back the
    upper-case letter and the digit. *)
Theorem key_to_coord_squares (l d : Z) :
  -113 <= key_to_coord l d <= 142 /\
  on_board (key_to_coord l d) =
    (1 <=? Z.land l 15) && (Z.land l 15 <=? 8) &&
    (1 <=? Z.land d 15) && (Z.land d 15 <=? 8) /\
  (on_board (key_to_coord l d) = true ->
   position_to_algebraic (key_to_coord l d) = (64 + Z.land l 15, 48 + Z.land d 15)).
Proof.
  rewrite key_to_coord_value.
  pose proof (land_15_range l) as Hl. pose proof (land_15_range d) as Hd.
  set (a := Z.land l 15) in *. set (b := Z.land d 15) in *. clearbody a b.
  assert (forallb (fun a => forallb (fun b =>
            Z.eqb (if on_board (a + 127 - 16 * b) then 1 else 0)
                  (if (1 <=? a) && (a <=? 8) && (1 <=? b) && (b <=? 8) then 1 else 0) &&
            implb (on_board (a + 127 - 16 * b))
                  ((fst (position_to_algebraic (a + 127 - 16 * b)) =? 64 + a) &&
                   (snd (position_to_algebraic (a + 127 - 16 * b)) =? 48 + b)))
            (zrange 16 0)) (zrange 16 0) = true) as T by (vm_compute; reflexivity).
  pose proof (forallb_zrange _ _ _ T a ltac:(lia)) as P. cbv beta in P.
  pose proof (forallb_zrange _ _ _ P b ltac:(lia)) as Q. cbv beta in Q.
  apply andb_true_iff in Q as [Q1 Q2]. apply Z.eqb_eq in Q1.
  split; [lia|]. split.
  - destruct (on_board (a + 127 - 16 * b)),
      ((1 <=? a) && (a <=? 8) && (1 <=? b) && (b <=? 8)); try reflexivity; discriminate.
  - intros E. rewrite E in Q2. cbn [implb] in Q2.
    apply andb_true_iff in Q2 as [Q2 Q3].
    apply Z.eqb_eq in Q2, Q3.
    destruct (position_to_algebraic (a + 127 - 16 * b)). cbn in *. congruence.
Qed.

Lemma key_to_coord_squares_witness :
  on_board (key_to_coord 100 50) = true /\
  position_to_algebraic (key_to_coord 100 50) = (68, 50).
Proof.
  pose proof (key_to_coord_squares 100 50) as (_ & _ & H).
  split; [reflexivity|]. apply H. reflexivity.
Defined.

(** ** Initialisation *)

Lemma wf_board_checked (b : list Z) :
  length b = 128%nat ->
  forallb (fun i => if on_board i then proper_cell (cell b i)
                    else cell b i =? FRONTIER) (zrange 128 0) = true ->
  wf_board b.
Proof.
  intros Hlen T. split; [exact Hlen|]. intros i Hi.
  pose proof (forallb_zrange _ _ _ T i ltac:(lia)) as P. cbv beta in P.
  destruct (on_board i); [exact P|]. by apply Z.eqb_eq.
Qed.

Lemma wf_board_initial : wf_board (board initial_state).
Proof. apply wf_board_checked; vm_compute; reflexivity. Qed.

Lemma set_square_keeps_board_well_formed_witness :
  wf_board (board (set_square initial_state 0x43 0x09)) /\
  (on_board 0x43 = false -> set_square initial_state 0x43 0x09 = initial_state).
Proof.
  apply (set_square_keeps_board_well_formed initial_state 0x43 0x09).
  - exact wf_board_initial.
  - reflexivity.
Defined.

Lemma list_of_length_128 (b : list Z) :
  length b = 128%nat ->
  fold_left (fun b i => if negb (Z.land i 0x88 =? 0)
                        then set_cell b i FRONTIER else b)
            (zrange 128 0)
            (fold_left (fun b i => set_cell b i EMPTY) (zrange 128 0) b) =
  create_board_cells.
Proof.
  intros H.
  do 128 (destruct b as [|? b]; [discriminate H|]).
  destruct b; [|discriminate H]. vm_compute. reflexivity.
Qed.

(** X6. Whatever the 128 cells of the board hold before, [create_board]
    followed by [setup_board] gives the state [init_chess] is modelled by:
    the standard position, a well-formed board, [enp] cleared and every other
    field kept. *)
Theorem init_chess_from_any_board (st : ChessState) :
  length (board st) = 128%nat ->
  setup_board (create_board st) = init_chess st /\
  wf_board (board (init_chess st)) /\
  board (init_chess st) = board initial_state.
Proof.
  intros H. split; [|split; [exact wf_board_initial|reflexivity]].
  unfold setup_board, create_board, init_chess.
  rewrite (list_of_length_128 _ H). reflexivity.
Qed.

Lemma init_chess_from_any_board_witness :
  setup_board (create_board castle_ready) = init_chess castle_ready /\
  wf_board (board (init_chess castle_ready)) /\
  board (init_chess castle_ready) = board initial_state.
Proof. apply (init_chess_from_any_board castle_ready). reflexivity. Defined.

(** ** The random byte *)

Lemma low_byte_of_seed (s : Z) :
  Z.land (Z.land ((s * 1103515245 + 12345) mod 2 ^ 32) 0x7fffffff) 0xFF =
  next_low_byte (Z.land s 0xFF).
Proof.
  unfold next_low_byte.
  change 0x7fffffff with (Z.ones 31). change 0xFF with (Z.ones 8).
  rewrite !Z.land_ones by lia.
  assert (D1 : (2 ^ 8 | 2 ^ 31)) by (exists (2 ^ 23); vm_compute; reflexivity).
  assert (D2 : (2 ^ 8 | 2 ^ 32)) by (exists (2 ^ 24); vm_compute; reflexivity).
  rewrite (Z.mod_mod_divide _ _ _ D1), (Z.mod_mod_divide _ _ _ D2).
  clear D1 D2. change (2 ^ 8) with 256.
  rewrite Z.add_mod by lia. rewrite Z.mul_mod by lia.
  rewrite (Z.add_mod (s mod 256 * 109)) by lia.
  rewrite (Z.mul_mod (s mod 256)) by lia.
  rewrite Z.mod_mod by lia. reflexivity.
Qed.

Lemma random_bytes_low (n : nat) (st : ChessState) :
  random_bytes n st = low_bytes n (Z.land (rand_seed st) 0xFF).
Proof.
  revert st. induction n as [|n IH]; intros st; [reflexivity|].
  cbn [random_bytes low_bytes]. rewrite IH.
  unfold get_random_byte. cbn [fst snd rand_seed set_rand_seed].
  by rewrite !low_byte_of_seed.
Qed.

Lemma count_occ_filter (l : list Z) (v : Z) :
  count_occ Z.eq_dec l v = length (List.filter (Z.eqb v) l).
Proof.
  induction l as [|x l IH]; [reflexivity|]. cbn [count_occ List.filter].
  destruct (Z.eq_dec x v) as [->|N].
  - rewrite Z.eqb_refl. cbn. by rewrite IH.
  - destruct (Z.eqb_spec v x); [congruence|exact IH].
Qed.

Lemma low_bytes_cycle :
  forallb (fun x => (fun l => forallb (fun v =>
            Nat.eqb (length (List.filter (Z.eqb v) l)) 1) (zrange 256 0))
                    (low_bytes 256 x))
          (zrange 256 0) = true.
Proof. vm_compute. reflexivity. Qed.

(** X7. [get_random_byte] returns a byte, keeps the seed below 2^31 and
    changes no other field; whatever the seed, 256 successive calls return
    each of the 256 byte values exactly once (the low byte of the seed runs
    through one cycle of length 256). *)
Theorem get_random_byte_cycle (st : ChessState) :
  0 <= snd (get_random_byte st) < 256 /\
  0 <= rand_seed (fst (get_random_byte st)) < 2 ^ 31 /\
  set_rand_seed (fst (get_random_byte st)) (rand_seed st) = set_rand_seed st (rand_seed st) /\
  forall v, 0 <= v < 256 ->
    count_occ Z.eq_dec (random_bytes 256 st) v = 1%nat.
Proof.
  split; [|split; [|split]].
  - unfold get_random_byte. cbn [snd].
    change 0xFF with (Z.ones 8). rewrite Z.land_ones by lia.
    apply Z.mod_pos_bound. lia.
  - unfold get_random_byte. cbn [fst rand_seed set_rand_seed].
    change 0x7fffffff with (Z.ones 31). rewrite Z.land_ones by lia.
    apply Z.mod_pos_bound. lia.
  - reflexivity.
  - intros v Hv. rewrite random_bytes_low.
    change 0xFF with (Z.ones 8). rewrite Z.land_ones by lia. change (2 ^ 8) with 256.
    pose proof (Z.mod_pos_bound (rand_seed st) 256 ltac:(lia)) as R.
    set (x := rand_seed st mod 256) in *. clearbody x.
    pose proof (forallb_zrange _ _ _ low_bytes_cycle x ltac:(lia)) as P. cbv beta in P.
    pose proof (forallb_zrange _ _ _ P v ltac:(lia)) as Q. cbv beta in Q.
    rewrite count_occ_filter. by apply Nat.eqb_eq.
Qed.

(** ** The scores and the state [play] returns *)

Lemma entry_piece_scores_range (t : Z) : 0 <= entry piece_scores t <= 9.
Proof.
  unfold entry, piece_scores.
  destruct (Z.to_nat t) as [|[|[|[|[|[|[|n]]]]]]]; cbn; try lia.
  destruct n; lia.
Qed.

Lemma search_moves_bounds (reply : Z -> Z -> Z) (root : bool) (kcs : Z)
    (ms : list move) :
  (forall si di, MIN_SCORE <= reply si di <= 32777) ->
  MIN_SCORE <= kcs <= 32777 ->
  forall bp bst,
  MIN_SCORE <= bp <= 32777 ->
  MIN_SCORE <= outcome_score (search_moves reply root kcs ms bp bst) <= 32777 /\
  (outcome_rv (search_moves reply root kcs ms bp bst) = 0 \/
   outcome_rv (search_moves reply root kcs ms bp bst) = 1).
Proof.
  intros Hr Hk. induction ms as [|m ms IH]; intros bp bst Hb; cbn [search_moves].
  - cbn. auto.
  - destruct (captures_king m); [cbn; auto|].
    destruct (move_score reply m >? bp) eqn:E; [|by apply IH].
    apply IH. unfold move_score in *.
    pose proof (entry_piece_scores_range (get_piece_type (snd m))).
    pose proof (Hr (fst (fst m)) (snd (fst m))).
    unfold MIN_SCORE in *. lia.
Qed.

Lemma node_value_bounds (dl ep lmc : Z) (n : nat) :
  forall b sd oh th cc,
  MIN_SCORE <= fst (fst (node_value dl ep lmc n b sd oh th cc)) <= 32777 /\
  (snd (fst (node_value dl ep lmc n b sd oh th cc)) = 0 \/
   snd (fst (node_value dl ep lmc n b sd oh th cc)) = 1).
Proof.
  induction n as [|n IH]; intros b sd oh th cc.
  - cbn. unfold MIN_SCORE. lia.
  - cbn [node_value].
    set (kcs := if sd >? MAX_DEPTH_PLY1 then MAX_CHECKMATE_SCORE else KING_CAPTURE_SCORE).
    assert (MIN_SCORE <= kcs <= 32777) as Hk
      by (unfold kcs, MIN_SCORE, MAX_CHECKMATE_SCORE, KING_CAPTURE_SCORE;
          destruct (sd >? MAX_DEPTH_PLY1); lia).
    destruct (negb (lmc =? 0) && (sd =? 0)).
    + destruct (scan_moves_values kcs oh th (pass_moves b ep cc)) as [E|[E|E]];
        rewrite E; cbn; unfold MIN_SCORE, ILLEGAL_MOVE_SCORE in *; lia.
    + match goal with
      | |- context [search_moves ?r ?root kcs ?ms MIN_SCORE None] =>
          pose proof (search_moves_bounds r root kcs ms) as S
      end.
      cbv beta in S.
      match type of S with
      | ?A -> _ => assert A as HA
      end.
      { intros si di. destruct (sd <? dl); [apply IH|unfold MIN_SCORE; lia]. }
      specialize (S HA Hk MIN_SCORE None ltac:(unfold MIN_SCORE; lia)).
      destruct (search_moves _ _ kcs _ MIN_SCORE None); cbn in *; exact S.
Qed.

Lemma move_score_bounds (st : ChessState) (cc : Z) (m : move) :
  -32777 <= move_score (reply_score st cc) m <= 32777.
Proof.
  unfold move_score, reply_score.
  pose proof (entry_piece_scores_range (get_piece_type (snd m))).
  destruct (stack_depth st <? depth_limit st); [|lia].
  rewrite score_of_play.
  match goal with
  | |- context [value_of ?n ?s ?a ?b ?c] =>
      pose proof (node_value_bounds (depth_limit s) (enp s) (legal_move_check s)
                    n (board s) (stack_depth s) a b c) as [B _]
  end.
  unfold value_of. unfold MIN_SCORE in B. lia.
Qed.

(** X8. From a state whose [stack_depth] is a 32-bit [int] and whose
    [depth_limit] is at most [INT_MAX - 1], whatever the hints and the
    colour: [play] returns, with a score between -32768 and 32777 and a
    return value of 0 or 1; the score of every move it tries ([piece_scores]
    minus the score of the reply, line 413) is between -32777 and 32777; and
    at every node of the search below that state [depth_limit] is the same,
    [stack_depth] is a 32-bit [int], so is the [stack_depth + 2] of line 410
    when it is computed, and the scores of the moves are bounded alike. *)
Theorem play_scores_are_bounded (st : ChessState) (oh th cc : Z) :
  -2147483648 <= stack_depth st <= 2147483647 ->
  depth_limit st <= 2147483646 ->
  (exists st' score rv,
     play st oh th cc = Some (st', score, rv) /\
     -32768 <= score <= 32777 /\ (rv = 0 \/ rv = 1)) /\
  (forall m, -32777 <= move_score (reply_score st cc) m <= 32777) /\
  (forall n, below st n ->
     depth_limit n = depth_limit st /\
     -2147483648 <= stack_depth n <= 2147483647 /\
     (stack_depth n < depth_limit n ->
      -2147483648 <= stack_depth n + 2 <= 2147483647) /\
     forall c m, -32777 <= move_score (reply_score n c) m <= 32777).
Proof.
  intros Hs Hd. split; [|split].
  - destruct (play_value st oh th cc) as (st' & Hp & _).
    pose proof (node_value_bounds (depth_limit st) (enp st) (legal_move_check st)
                  (levels st) (board st) (stack_depth st) oh th cc) as [B R].
    exists st'. eexists. eexists. split; [exact Hp|]. split; [exact B|exact R].
  - intros m. apply move_score_bounds.
  - intros n Hn.
    assert (depth_limit n = depth_limit st /\
            -2147483648 <= stack_depth n <= 2147483647) as [E R].
    { induction Hn as [|n n1 b Hn [E R] (f & t & ->) Hlt];
        [split; [reflexivity|exact Hs]|].
      unfold child_state.
      cbn [depth_limit stack_depth set_stack_depth set_board set_best].
      split; [exact E|lia]. }
    split; [exact E|]. split; [exact R|]. split; [lia|].
    intros c m. apply move_score_bounds.
Qed.

Lemma play_scores_are_bounded_witness :
  exists st' score rv,
    play (search_config initial_state) (-1) (-1) BLACK = Some (st', score, rv) /\
    -32768 <= score <= 32777 /\ (rv = 0 \/ rv = 1).
Proof.
  apply (play_scores_are_bounded (search_config initial_state) (-1) (-1) BLACK).
  - change (stack_depth (search_config initial_state)) with 0. lia.
  - change (depth_limit (search_config initial_state)) with 6. lia.
Defined.

Lemma frame_all_fields (st st' : ChessState) :
  frame st st' ->
  temp_score st' = temp_score st /\ rand_seed st' = rand_seed st.
Proof. by intros (f & t & ->). Qed.

(** X9. [play] changes nothing in the state but the recorded move
    [best_from]/[best_to]: the board, [enp], [stack_depth], [depth_limit],
    [legal_move_check], [temp_score] and the seed come back as they were; and
    it records no move when validating or when entered at a depth above
    zero. *)
Theorem play_changes_the_recorded_move_only (st : ChessState) (oh th cc : Z) :
  exists st' score rv f t,
    play st oh th cc = Some (st', score, rv) /\
    st' = set_best st f t /\
    (validating st = true \/ 0 < stack_depth st -> st' = st).
Proof.
  destruct (play_value st oh th cc) as (st' & Hp & (f & t & Hf) & Hu).
  exists st'. do 2 eexists. exists f, t. split; [exact Hp|]. split; [exact Hf|].
  intros [V|D].
  - rewrite (play_validating st oh th cc V) in Hp. by inversion Hp.
  - rewrite Hu by lia. unfold value_of. by rewrite node_value_inner.
Qed.

Lemma node_value_reads (dl ep lmc : Z) (n : nat) (b : list Z) (sd oh th oh' th' cc : Z) :
  negb (lmc =? 0) && (sd =? 0) = false ->
  node_value dl ep lmc n b sd oh th cc = node_value dl ep lmc n b sd oh' th' cc.
Proof. intros H. destruct n; [reflexivity|]. cbn [node_value]. by rewrite H. Qed.

(** X10. The score and the return value of [play] depend on the state
    through the board, [depth_limit], [enp], [legal_move_check] and
    [stack_depth] only, and a search (as opposed to a validation) does not
    look at the two hints. *)
Theorem play_reads_five_fields (st1 st2 : ChessState) (oh th oh' th' cc : Z) :
  board st1 = board st2 ->
  depth_limit st1 = depth_limit st2 ->
  enp st1 = enp st2 ->
  legal_move_check st1 = legal_move_check st2 ->
  stack_depth st1 = stack_depth st2 ->
  validating st1 = false \/ (oh = oh' /\ th = th') ->
  exists st1' st2' score rv,
    play st1 oh th cc = Some (st1', score, rv) /\
    play st2 oh' th' cc = Some (st2', score, rv).
Proof.
  intros Hb Hd He Hl Hs Hh.
  destruct (play_value st1 oh th cc) as (st1' & Hp1 & _).
  destruct (play_value st2 oh' th' cc) as (st2' & Hp2 & _).
  exists st1', st2'. do 2 eexists. split; [exact Hp1|].
  rewrite Hp2. unfold value_of, levels. rewrite <- Hb, <- Hd, <- He, <- Hl, <- Hs.
  destruct Hh as [V|[-> ->]]; [|reflexivity].
  unfold validating in V.
  by rewrite (node_value_reads _ _ _ _ _ _ oh th oh' th' cc V).
Qed.

(** ** The moves the enumerator generates *)

Lemma land_lxor_distr (a b m : Z) :
  Z.land (Z.lxor a b) m = Z.lxor (Z.land a m) (Z.land b m).
Proof.
  apply Z.bits_inj'. intros n Hn.
  rewrite !Z.land_spec, !Z.lxor_spec, !Z.land_spec.
  by destruct (Z.testbit a n), (Z.testbit b n), (Z.testbit m n).
Qed.

Lemma off_board_on_board (di : Z) : off_board di = negb (on_board di).
Proof.
  unfold off_board, on_board.
  destruct (Z.land di 136 =? 0), (0 <=? di) eqn:A, (di <? BOARD_SIZE) eqn:B,
    (di <? 0) eqn:C, (BOARD_SIZE <=? di) eqn:D; cbn; try reflexivity; lia.
Qed.

(** The piece [movement] accepts is of the colour to move, and its type
    gives the slice of [displacement] it moves along. *)
Lemma movement_of_piece (cc p mo mc : Z) (sl : bool) :
  cc = BLACK \/ cc = WHITE ->
  movement cc p = Some (mo, mc, sl) ->
  get_piece_color p = cc /\
  In (get_piece_type p, mo, mc, sl)
     [ (PAWN, if cc =? BLACK then 16 else 20, 4, false);
       (ROOK, 8, 4, true); (BISHOP, 12, 4, true); (QUEEN, 8, 8, true);
       (KNIGHT, 0, 8, false); (KING, 8, 8, false) ].
Proof.
  intros Hc. unfold movement, get_piece_color, get_piece_type,
    PIECE_FULL_MASK, COLOR_MASK, PIECE_MASK.
  rewrite land_lxor_distr.
  replace (Z.land p 8) with (Z.land (Z.land p 15) 8)
    by (by rewrite <- Z.land_assoc).
  replace (Z.land p 7) with (Z.land (Z.land p 15) 7)
    by (by rewrite <- Z.land_assoc).
  pose proof (land_15_range p) as R.
  set (q := Z.land p 15) in *. clearbody q.
  assert (q = 0 \/ q = 1 \/ q = 2 \/ q = 3 \/ q = 4 \/ q = 5 \/ q = 6 \/ q = 7 \/
          q = 8 \/ q = 9 \/ q = 10 \/ q = 11 \/ q = 12 \/ q = 13 \/ q = 14 \/ q = 15)
    as C by lia.
  destruct Hc as [-> | ->];
    repeat (destruct C as [->|C]); try subst q;
    cbn; intros H; try discriminate H; inversion H; subst; cbn; tauto.
Qed.

Lemma moves_origin (through : bool) (b : list Z) (ep cc : Z) (m : move) :
  In m (moves through b ep cc) -> on_board (fst (fst m)) = true.
Proof.
  unfold moves. rewrite in_flat_map. intros (si & Hsi & Hm).
  unfold piece_moves in Hm.
  destruct (Z.land si 136 =? 0) eqn:E; [|done]. cbn [negb] in Hm.
  destruct (movement cc (cell b si)) as [[[mo mc] sl]|]; [|done].
  rewrite in_flat_map in Hm. destruct Hm as (md & _ & Hm).
  rewrite in_map_iff in Hm. destruct Hm as (t & <- & _). cbn [fst].
  apply in_zrange in Hsi. unfold on_board, BOARD_SIZE. rewrite E. cbn. 
  apply andb_true_iff. split; lia.
Qed.

Lemma reaches_valid_move_target (b : list Z) (ep cc mo mc di : Z) :
  reaches_valid_move b ep cc mo mc di = true ->
  Z.land (cell b di) PIECE_FULL_MASK = EMPTY \/
  (get_piece_color (cell b di) <> cc /\ get_piece_type (cell b di) <= 6).
Proof.
  unfold reaches_valid_move, get_piece_color.
  destruct (Z.land (cell b di) PIECE_FULL_MASK =? EMPTY) eqn:E.
  - intros _. left. by apply Z.eqb_eq.
  - intros H. right. apply andb_true_iff in H as [H1 H2].
    apply negb_true_iff, Z.eqb_neq in H1. rewrite type_of_masked in H2.
    split; [exact H1|lia].
Qed.

Lemma moves_well_formed (through : bool) (b : list Z) (ep cc : Z) (m : move) :
  cc = BLACK \/ cc = WHITE ->
  In m (moves through b ep cc) ->
  on_board (fst (fst m)) = true /\
  on_board (snd (fst m)) = true /\
  snd (fst m) <> fst (fst m) /\
  snd m = cell b (snd (fst m)) /\
  get_piece_color (cell b (fst (fst m))) = cc /\
  1 <= get_piece_type (cell b (fst (fst m))) <= 6 /\
  (Z.land (snd m) PIECE_FULL_MASK = EMPTY \/
   (get_piece_color (snd m) <> cc /\ get_piece_type (snd m) <= 6)).
Proof.
  intros Hc Hm. pose proof (moves_origin _ _ _ _ _ Hm) as Ho.
  apply moves_valid in Hm as (mo & mc & sl & Hmv & Hoff & Hv & Hs).
  destruct (movement_of_piece _ _ _ _ _ Hc Hmv) as [Hcol Hty].
  apply reaches_valid_move_target in Hv. rewrite <- Hs in Hv.
  rewrite off_board_on_board in Hoff. apply negb_false_iff in Hoff.
  assert (1 <= get_piece_type (cell b (fst (fst m))) <= 6) as Ht.
  { cbn in Hty. unfold PAWN, ROOK, BISHOP, QUEEN, KNIGHT, KING in Hty.
    repeat (destruct Hty as [Hty|Hty]; [inversion Hty; lia|]). done. }
  repeat split; try done; try lia.
  intros E. rewrite E in Hs. rewrite Hs in Hv.
  destruct Hv as [Hv|[Hv _]]; [|done].
  unfold get_piece_type, PIECE_FULL_MASK, PIECE_MASK, EMPTY in *.
  assert (Z.land (Z.land (cell b (fst (fst m))) 15) 7 = 0) as Z0 by (by rewrite Hv).
  rewrite <- Z.land_assoc in Z0. change (Z.land 15 7) with 7 in Z0. lia.
Qed.

(** X11. Every move the enumerator yields for Black or White, in a search
    and in a validating pass alike, starts on a square of the board that
    holds a piece of the mover (type 1..6) and ends on another square of the
    board that is empty or holds a piece of the other colour, never a
    frontier marker; the third component is the contents of the target. *)
Theorem generated_moves_are_well_formed (through : bool) (b : list Z)
    (ep cc si di tp : Z) :
  cc = BLACK \/ cc = WHITE ->
  In (si, di, tp) (moves through b ep cc) ->
  on_board si = true /\ on_board di = true /\ di <> si /\
  tp = cell b di /\
  get_piece_color (cell b si) = cc /\
  1 <= get_piece_type (cell b si) <= 6 /\
  (Z.land tp PIECE_FULL_MASK = EMPTY \/
   (get_piece_color tp <> cc /\ get_piece_type tp <= 6)).
Proof. intros Hc Hm. exact (moves_well_formed through b ep cc (si, di, tp) Hc Hm). Qed.

Lemma generated_moves_are_well_formed_witness :
  on_board 0x01 = true /\ on_board 0x22 = true /\ 0x22 <> 0x01 /\
  0 = cell (board initial_state) 0x22 /\
  get_piece_color (cell (board initial_state) 0x01) = BLACK /\
  1 <= get_piece_type (cell (board initial_state) 0x01) <= 6 /\
  (Z.land 0 PIECE_FULL_MASK = EMPTY \/
   (get_piece_color 0 <> BLACK /\ get_piece_type 0 <= 6)).
Proof.
  apply (generated_moves_are_well_formed false (board initial_state)
           (enp initial_state) BLACK 0x01 0x22 0).
  - left. reflexivity.
  - vm_compute. tauto.
Defined.

Lemma next_square_step (mo md di : Z) :
  next_square mo md di = di + next_square mo md 0.
Proof. unfold next_square. lia. Qed.

(** A target of a ray of a search node is [k] steps away, [k = 1] for a
    piece that does not slide, and the squares passed are empty. *)
Lemma ray_targets_steps (fuel : nat) (b : list Z) (ep cc mo mc : Z)
    (sl : bool) (md : Z) :
  forall di t,
  In t (ray_targets false fuel b ep cc mo mc sl md di) ->
  exists k,
    1 <= k <= Z.of_nat fuel /\
    fst t = di + k * next_square mo md 0 /\
    (sl = false -> k = 1) /\
    forall j, 1 <= j < k ->
      on_board (di + j * next_square mo md 0) = true /\
      Z.land (cell b (di + j * next_square mo md 0)) PIECE_FULL_MASK = EMPTY.
Proof.
  set (d := next_square mo md 0).
  induction fuel as [|fuel IH]; intros di t; cbn [ray_targets]; [done|].
  rewrite (next_square_step mo md di). fold d.
  destruct (off_board (di + d)) eqn:Hoff; [done|].
  destruct (reaches_valid_move b ep cc mo mc (di + d)); [|done].
  cbn [negb orb]. intros [<-|H].
  - exists 1. cbn [fst]. repeat split; try lia.
  - destruct sl; [|done]. cbn [andb] in H.
    destruct (Z.land (cell b (di + d)) PIECE_FULL_MASK =? EMPTY) eqn:E; [|done].
    apply IH in H as (k & Hk & Ht & _ & Hj).
    exists (k + 1). split; [lia|]. split; [lia|]. split; [done|].
    intros j Hj'. destruct (decide (j = 1)) as [->|N].
    + rewrite Z.mul_1_l. rewrite off_board_on_board in Hoff.
      apply negb_false_iff in Hoff. split; [exact Hoff|by apply Z.eqb_eq].
    + replace (di + j * d) with (di + d + (j - 1) * d) by lia.
      apply Hj. lia.
Qed.

Lemma gen_moves_steps (b : list Z) (ep cc : Z) (m : move) :
  cc = BLACK \/ cc = WHITE ->
  In m (gen_moves b ep cc) ->
  exists d k,
    1 <= k <= 8 /\
    snd (fst m) = fst (fst m) + k * d /\
    (forall j, 1 <= j < k ->
       on_board (fst (fst m) + j * d) = true /\
       Z.land (cell b (fst (fst m) + j * d)) PIECE_FULL_MASK = EMPTY) /\
    ((get_piece_type (cell b (fst (fst m))) = PAWN /\ k = 1 /\
      In d (if cc =? BLACK then [-17; -15; -16; -32] else [15; 17; 16; 32])) \/
     (get_piece_type (cell b (fst (fst m))) = ROOK /\ In d [-16; 16; -1; 1]) \/
     (get_piece_type (cell b (fst (fst m))) = BISHOP /\ In d [15; 17; -15; -17]) \/
     (get_piece_type (cell b (fst (fst m))) = QUEEN /\
      In d [-16; 16; -1; 1; 15; 17; -15; -17]) \/
     (get_piece_type (cell b (fst (fst m))) = KNIGHT /\ k = 1 /\
      In d [-33; -31; -18; -14; 14; 18; 31; 33]) \/
     (get_piece_type (cell b (fst (fst m))) = KING /\ k = 1 /\
      In d [-16; 16; -1; 1; 15; 17; -15; -17])).
Proof.
  intros Hc. unfold gen_moves, moves. rewrite in_flat_map. intros (si & _ & Hm).
  unfold piece_moves in Hm.
  destruct (negb _); [done|].
  destruct (movement cc (cell b si)) as [[[mo mc] sl]|] eqn:Hmv; [|done].
  rewrite in_flat_map in Hm. destruct Hm as (md & Hmd & Hm).
  rewrite in_map_iff in Hm. destruct Hm as (t & <- & Ht). cbn [fst snd].
  apply ray_targets_steps in Ht as (k & Hk & Hd & Hsl & Hj).
  apply in_zrange in Hmd.
  destruct (movement_of_piece _ _ _ _ _ Hc Hmv) as [_ Hty].
  exists (next_square mo md 0), k.
  split; [unfold ray_fuel in Hk; lia|]. split; [exact Hd|]. split; [exact Hj|].
  clear Hj Hd Hmv.
  assert (forall mc', mc = mc' -> 0 <= mc' <= 8 ->
            md = 0 \/ md = 1 \/ md = 2 \/ md = 3 \/
            (4 < mc /\ (md = 4 \/ md = 5 \/ md = 6 \/ md = 7))) as Cases
    by (intros; lia).
  cbn in Hty.
  destruct Hty as [Hty|[Hty|[Hty|[Hty|[Hty|[Hty|[]]]]]]];
    inversion Hty as [[Ety Emo Emc Esl]]; subst mo mc sl;
    rewrite Ety;
    (destruct (Cases _ eq_refl ltac:(lia)) as [->|[->|[->|[->|[? C]]]]];
     [..|try lia; destruct C as [->|[->|[->| ->]]]]);
    try (destruct Hc as [-> | ->]);
    cbn; unfold PAWN, ROOK, BISHOP, QUEEN, KNIGHT, KING;
    try (specialize (Hsl eq_refl));
    tauto.
Qed.

(** X12. Every move a search node generates for Black or White goes [k]
    steps of one displacement of its piece from the origin: a rook along a
    row or a file, a bishop along a diagonal, a queen along either, with the
    squares passed empty and on the board; a knight, a king and a pawn one
    step only ([k = 1]), so a king never moves two files (castling is never
    generated), and a black pawn steps by -17, -15, -16 or -32, a white one
    by 15, 17, 16 or 32. *)
Theorem search_moves_follow_the_piece (b : list Z) (ep cc si di tp : Z) :
  cc = BLACK \/ cc = WHITE ->
  In (si, di, tp) (gen_moves b ep cc) ->
  exists d k,
    1 <= k <= 8 /\
    di = si + k * d /\
    (forall j, 1 <= j < k ->
       on_board (si + j * d) = true /\
       Z.land (cell b (si + j * d)) PIECE_FULL_MASK = EMPTY) /\
    ((get_piece_type (cell b si) = PAWN /\ k = 1 /\
      In d (if cc =? BLACK then [-17; -15; -16; -32] else [15; 17; 16; 32])) \/
     (get_piece_type (cell b si) = ROOK /\ In d [-16; 16; -1; 1]) \/
     (get_piece_type (cell b si) = BISHOP /\ In d [15; 17; -15; -17]) \/
     (get_piece_type (cell b si) = QUEEN /\
      In d [-16; 16; -1; 1; 15; 17; -15; -17]) \/
     (get_piece_type (cell b si) = KNIGHT /\ k = 1 /\
      In d [-33; -31; -18; -14; 14; 18; 31; 33]) \/
     (get_piece_type (cell b si) = KING /\ k = 1 /\
      In d [-16; 16; -1; 1; 15; 17; -15; -17])).
Proof. intros Hc Hm. exact (gen_moves_steps b ep cc (si, di, tp) Hc Hm). Qed.

(** ** Validation, seen from the move accepted *)

Lemma scan_moves_pair (kcs oh th : Z) (ms : list move) :
  kcs <> 0 ->
  scan_moves kcs oh th ms = Some (0, 0) ->
  exists m, In m ms /\ is_pair oh th m = true.
Proof.
  intros Hk. induction ms as [|m ms IH]; cbn [scan_moves]; [done|].
  destruct (captures_king m); [intros H; inversion H; done|].
  destruct (is_pair oh th m) eqn:E.
  - intros _. exists m. split; [by left|exact E].
  - intros H. destruct (IH H) as (m' & Hin & Hp). exists m'. split; [by right|exact Hp].
Qed.

Lemma play_validate_score (st : ChessState) (oh th cc : Z) :
  play_validate st oh th cc =
  Some (validate_config st,
        match scan_moves KING_CAPTURE_SCORE oh th
                (pass_moves (board st) (enp st) cc) with
        | Some (s, _) => s
        | None => ILLEGAL_MOVE_SCORE
        end).
Proof.
  unfold play_validate.
  rewrite (play_validating _ oh th cc (validating_config st)). reflexivity.
Qed.

(** X13. A move [play_validate] accepts with score 0 for Black or White is
    one of the moves of the validating pass: it starts on a square of the
    board holding a piece of the mover and ends on another square of the
    board, empty or holding a piece of the other colour. *)
Theorem accepted_move_is_well_formed (st st' : ChessState) (origin target cc : Z) :
  cc = BLACK \/ cc = WHITE ->
  play_validate st origin target cc = Some (st', 0) ->
  In (origin, target, cell (board st) target) (pass_moves (board st) (enp st) cc) /\
  on_board origin = true /\ on_board target = true /\ target <> origin /\
  get_piece_color (cell (board st) origin) = cc /\
  1 <= get_piece_type (cell (board st) origin) <= 6 /\
  (Z.land (cell (board st) target) PIECE_FULL_MASK = EMPTY \/
   get_piece_color (cell (board st) target) <> cc).
Proof.
  intros Hc. rewrite play_validate_score. intros H.
  destruct (scan_moves_values KING_CAPTURE_SCORE origin target
              (pass_moves (board st) (enp st) cc)) as [E|[E|E]];
    rewrite E in H; try (inversion H; done).
  apply scan_moves_pair in E as ([[si di] tp] & Hin & Hp); [|done].
  unfold is_pair in Hp. cbn [fst snd] in Hp.
  apply andb_true_iff in Hp as [H1 H2]. apply Z.eqb_eq in H1, H2. subst si di.
  destruct (moves_well_formed _ _ _ _ _ Hc Hin) as (A & B & C & D & F & G & I).
  cbn [fst snd] in *. subst tp.
  repeat split; try done; try lia;
    try (destruct I as [I|[I _]]; [by left|by right]).
Qed.

Lemma accepted_move_is_well_formed_witness :
  In (0x71, 0x52, cell (board initial_state) 0x52)
     (pass_moves (board initial_state) (enp initial_state) WHITE) /\
  on_board 0x71 = true /\ on_board 0x52 = true /\ 0x52 <> 0x71 /\
  get_piece_color (cell (board initial_state) 0x71) = WHITE /\
  1 <= get_piece_type (cell (board initial_state) 0x71) <= 6 /\
  (Z.land (cell (board initial_state) 0x52) PIECE_FULL_MASK = EMPTY \/
   get_piece_color (cell (board initial_state) 0x52) <> WHITE).
Proof.
  apply (accepted_move_is_well_formed initial_state (validate_config initial_state)
           0x71 0x52 WHITE).
  - right. reflexivity.
  - vm_compute. reflexivity.
Defined.

(** ** [make_move] on the moves of a search, and [computer_move] *)

Lemma search_moves_best (reply : Z -> Z -> Z) (root : bool) (kcs : Z)
    (ms : list move) :
  forall bp bst,
  outcome_best (search_moves reply root kcs ms bp bst) = bst \/
  exists m, In m ms /\ captures_king m = false /\
            outcome_best (search_moves reply root kcs ms bp bst) = Some (fst m).
Proof.
  induction ms as [|m ms IH]; intros bp bst; cbn [search_moves]; [by left|].
  destruct (captures_king m) eqn:K; [by left|].
  destruct (move_score reply m >? bp).
  - destruct (IH (move_score reply m) (if root then Some (fst m) else bst))
      as [E|(m' & Hin & Hk & E)].
    + rewrite E. destruct root; [|by left].
      right. exists m. split; [by left|done].
    + right. exists m'. split; [by right|done].
  - destruct (IH bp bst) as [E|(m' & Hin & Hk & E)]; [by left|].
    right. exists m'. split; [by right|done].
Qed.

Lemma color_bit (p : Z) : Z.land p COLOR_MASK = 0 \/ Z.land p COLOR_MASK = 8.
Proof.
  unfold COLOR_MASK.
  replace (Z.land p 8) with (Z.land (Z.land p 15) 8) by (by rewrite <- Z.land_assoc).
  pose proof (land_15_range p) as R. set (q := Z.land p 15) in *. clearbody q.
  assert (q = 0 \/ q = 1 \/ q = 2 \/ q = 3 \/ q = 4 \/ q = 5 \/ q = 6 \/ q = 7 \/
          q = 8 \/ q = 9 \/ q = 10 \/ q = 11 \/ q = 12 \/ q = 13 \/ q = 14 \/ q = 15)
    as C by lia.
  repeat (destruct C as [->|C]); try subst q; cbn; tauto.
Qed.

Lemma proper_moved_piece (p : Z) :
  1 <= get_piece_type p <= 6 -> proper_cell (Z.land p PIECE_FULL_MASK) = true.
Proof.
  intros H. unfold proper_cell.
  change (get_piece_type (Z.land p PIECE_FULL_MASK))
    with (Z.land (Z.land p PIECE_FULL_MASK) PIECE_MASK).
  rewrite type_of_masked.
  pose proof (land_15_range p). unfold PIECE_FULL_MASK.
  apply orb_true_iff. right.
  repeat (apply andb_true_iff; split); lia.
Qed.

Lemma proper_queen (p : Z) :
  proper_cell (Z.lor (Z.land p COLOR_MASK) QUEEN) = true.
Proof. by destruct (color_bit p) as [-> | ->]. Qed.

Lemma beside_on_board (from : Z) :
  on_board from = true ->
  on_board (from + 15) = true \/ on_board (from - 17) = true ->
  on_board (from - 1) = true.
Proof.
  intros H. pose proof (on_board_range from H) as R.
  assert (forallb (fun i => implb (on_board i)
            (implb (on_board (i + 15) || on_board (i - 17)) (on_board (i - 1))))
          (zrange 128 0) = true) as T by (vm_compute; reflexivity).
  pose proof (forallb_zrange _ _ _ T from ltac:(lia)) as P. cbv beta in P.
  rewrite H in P. cbn [implb] in P.
  intros [E|E]; rewrite E in P; [|rewrite orb_true_r in P]; exact P.
Qed.

Lemma pawn_effects_safe (b : list Z) (ep from to piece captured : Z) :
  on_board from = true -> on_board to = true ->
  In (to - from) [-17; -15; -16; -32; 15; 17; 16; 32] ->
  exists b' e,
    pawn_effects b ep from to piece captured = Some (b', e) /\
    (wf_board b -> wf_board b').
Proof.
  intros Hf Ht Hd. pose proof (on_board_range _ Hf). pose proof (on_board_range _ Ht).
  unfold pawn_effects.
  set (b1 := if (Z.land to 240 =? 0) || (Z.land to 240 =? 112) then _ else Some b).
  assert (exists b1', b1 = Some b1' /\ (wf_board b -> wf_board b1')) as (b1' & -> & W1).
  { unfold b1. destruct (_ || _).
    - rewrite store_at_in by lia. eexists. split; [reflexivity|].
      intros W. apply wf_board_set_cell; [done|done|apply proper_queen].
    - eauto. }
  cbn [mbind option_bind].
  cbn [In] in Hd.
  destruct Hd as [E|[E|[E|[E|[E|[E|[E|[E|[]]]]]]]]]; rewrite <- E; cbn;
    try (do 2 eexists; split; [reflexivity|exact W1]).
  - assert (on_board (from - 1) = true) as Hb.
    { apply beside_on_board; [done|]. right. by replace (from - 17) with to by lia. }
    pose proof (on_board_range _ Hb).
    destruct ((captured =? EMPTY) && (to =? ep)).
    + rewrite store_at_in by lia. cbn. do 2 eexists. split; [reflexivity|].
      intros W. apply wf_board_set_cell; [by apply W1| |done].
      by replace (to + 16) with (from - 1) by lia.
    + cbn. do 2 eexists. split; [reflexivity|exact W1].
  - assert (on_board (from - 1) = true) as Hb.
    { apply beside_on_board; [done|]. left. by replace (from + 15) with to by lia. }
    pose proof (on_board_range _ Hb).
    destruct ((captured =? EMPTY) && (to =? ep)).
    + rewrite store_at_in by lia. cbn. do 2 eexists. split; [reflexivity|].
      intros W. apply wf_board_set_cell; [by apply W1| |done].
      by replace (to - 16) with (from - 1) by lia.
    + cbn. do 2 eexists. split; [reflexivity|exact W1].
Qed.

Lemma wf_moved_board (b : list Z) (si di : Z) :
  on_board si = true -> on_board di = true ->
  1 <= get_piece_type (cell b si) <= 6 ->
  wf_board b -> wf_board (moved_board b si di).
Proof.
  intros Hs Hd Ht W. unfold moved_board.
  apply wf_board_set_cell; [|done|done].
  apply wf_board_set_cell; [done|done|by apply proper_moved_piece].
Qed.

(** [make_move] on a move from a square of the board to another, of a piece
    of type 1..6, when a pawn goes by one of the pawn displacements and a
    king does not go two files. *)
Lemma make_move_safe (st : ChessState) (si di : Z) :
  on_board si = true -> on_board di = true ->
  1 <= get_piece_type (cell (board st) si) <= 6 ->
  (get_piece_type (cell (board st) si) = PAWN ->
   In (di - si) [-17; -15; -16; -32; 15; 17; 16; 32]) ->
  (get_piece_type (cell (board st) si) = KING -> di - si <> 2 /\ di - si <> -2) ->
  exists st1,
    make_move st si di = Some st1 /\
    (wf_board (board st) -> wf_board (board st1)) /\
    (get_piece_type (cell (board st) si) <> PAWN ->
     st1 = set_enp (set_board st (moved_board (board st) si di)) 0).
Proof.
  intros Hs Hd Ht Hp Hk.
  pose proof (on_board_range _ Hs). pose proof (on_board_range _ Hd).
  unfold make_move. make_move_steps.
  fold (moved_board (board st) si di).
  pose proof (wf_moved_board (board st) si di Hs Hd Ht) as W.
  destruct (get_piece_type (cell (board st) si) =? PAWN) eqn:EP.
  - apply Z.eqb_eq in EP.
    destruct (pawn_effects_safe (moved_board (board st) si di) (enp st) si di
                (cell (board st) si) (cell (board st) di) Hs Hd (Hp EP))
      as (b' & e & -> & W').
    cbn [mbind option_bind].
    assert ((get_piece_type (cell (board st) si) =? KING) = false) as ->
      by (rewrite EP; reflexivity).
    cbn [mbind option_bind]. eexists. split; [reflexivity|].
    cbn [board set_enp set_board]. split; [by intros; apply W', W|done].
  - cbn [mbind option_bind].
    destruct (get_piece_type (cell (board st) si) =? KING) eqn:EK.
    + apply Z.eqb_eq in EK. destruct (Hk EK) as [N1 N2].
      unfold castling_effects.
      destruct (di - si =? 2) eqn:E1; [lia|].
      destruct (di - si =? -2) eqn:E2; [lia|].
      cbn [mbind option_bind]. eexists. split; [reflexivity|].
      cbn [board set_enp set_board]. split; [exact W|done].
    + cbn [mbind option_bind]. eexists. split; [reflexivity|].
      cbn [board set_enp set_board]. split; [exact W|done].
Qed.

Lemma make_move_generated (st : ChessState) (cc : Z) (m : move) :
  cc = BLACK \/ cc = WHITE ->
  In m (gen_moves (board st) (enp st) cc) ->
  exists st1,
    make_move st (fst (fst m)) (snd (fst m)) = Some st1 /\
    (wf_board (board st) -> wf_board (board st1)) /\
    (get_piece_type (cell (board st) (fst (fst m))) <> PAWN ->
     st1 = set_enp (set_board st (moved_board (board st) (fst (fst m)) (snd (fst m)))) 0).
Proof.
  intros Hc Hm.
  destruct (moves_well_formed _ _ _ _ _ Hc Hm) as (A & B & _ & _ & _ & G & _).
  destruct (gen_moves_steps _ _ _ _ Hc Hm) as (d & k & Hk & Hd & _ & Cases).
  apply make_move_safe; try done.
  - intros EP. rewrite EP in Cases. unfold PAWN, ROOK, BISHOP, QUEEN, KNIGHT, KING in Cases.
    destruct Cases as [(_ & -> & Hin)|[(?&_)|[(?&_)|[(?&_)|[(?&_)|(?&_)]]]]];
      try discriminate.
    replace (snd (fst m) - fst (fst m)) with d by lia.
    destruct Hc as [-> | ->]; cbn in Hin |- *; tauto.
  - intros EK. rewrite EK in Cases. unfold PAWN, ROOK, BISHOP, QUEEN, KNIGHT, KING in Cases.
    destruct Cases as [(?&_)|[(?&_)|[(?&_)|[(?&_)|[(?&_)|(_ & -> & Hin)]]]]];
      try discriminate.
    cbn in Hin. lia.
Qed.

(** X14. [make_move] plays what the search explored: for a move generated
    for Black or White whose piece is not a pawn, it returns without leaving
    the array, and its board is the one the search made for that move (the
    piece, its moved bit cleared, on the target and the origin empty), with
    [enp] cleared; a king move among them never triggers the rook relocation
    of castling. *)
Theorem make_move_plays_the_searched_board (st : ChessState) (cc si di tp : Z) :
  cc = BLACK \/ cc = WHITE ->
  In (si, di, tp) (gen_moves (board st) (enp st) cc) ->
  get_piece_type (cell (board st) si) <> PAWN ->
  make_move st si di = Some (set_enp (set_board st (moved_board (board st) si di)) 0).
Proof.
  intros Hc Hm Hp.
  destruct (make_move_generated st cc (si, di, tp) Hc Hm) as (st1 & E & _ & F).
  cbn [fst snd] in *. by rewrite E, (F Hp).
Qed.

Lemma make_move_plays_the_searched_board_witness :
  make_move initial_state 0x01 0x22 =
  Some (set_enp (set_board initial_state (moved_board (board initial_state) 0x01 0x22)) 0).
Proof.
  apply (make_move_plays_the_searched_board initial_state BLACK 0x01 0x22 0).
  - left. reflexivity.
  - vm_compute. tauto.
  - vm_compute. discriminate.
Defined.


Lemma validating_search_config (st : ChessState) :
  validating (search_config st) = false.
Proof. reflexivity. Qed.

Lemma computer_move_cases (st : ChessState) (color : Z) :
  color = BLACK \/ color = WHITE ->
  exists st1,
    computer_move st color = Some st1 /\
    (wf_board (board st) -> wf_board (board st1)) /\
    ((outcome_best (node_outcome (search_config st) color) = None /\
      st1 = search_config st) \/
     exists m,
       In m (gen_moves (board st) (enp st) color) /\
       captures_king m = false /\
       outcome_best (node_outcome (search_config st) color) = Some (fst m) /\
       make_move (set_best (search_config st) (fst (fst m)) (snd (fst m)))
                 (fst (fst m)) (snd (fst m)) = Some st1).
Proof.
  intros Hc. unfold computer_move.
  destruct (play_search_node (search_config st) (-1) (-1) color
              (validating_search_config st)) as (st' & -> & _ & Hu).
  specialize (Hu ltac:(cbn; lia)). subst st'.
  pose proof (search_moves_best (reply_score (search_config st) color)
                (stack_depth (search_config st) =? 0)
                (king_capture_score (search_config st))
                (gen_moves (board st) (enp st) color) MIN_SCORE None) as B.
  change (search_moves _ _ _ _ MIN_SCORE None)
    with (node_outcome (search_config st) color) in B.
  destruct B as [E|([[f t] tp] & Hin & Hk & E)]; rewrite E; cbn [upd].
  - eexists. split; [reflexivity|]. split; [done|]. by left.
  - cbn [fst snd] in *.
    destruct (moves_well_formed _ _ _ _ _ Hc Hin) as (A & B & _).
    cbn [fst snd] in A, B.
    pose proof (on_board_range _ A). pose proof (on_board_range _ B).
    cbn [best_from best_to set_best].
    destruct (0 <=? f) eqn:E1; [|lia]. destruct (0 <=? t) eqn:E2; [|lia].
    cbn [andb].
    destruct (make_move_generated (set_best (search_config st) f t) color (f, t, tp)
                Hc Hin) as (st1 & Hmk & W & _).
    cbn [fst snd] in Hmk.
    exists st1. split; [exact Hmk|]. split; [exact W|].
    right. exists (f, t, tp). cbn [fst snd]. done.
Qed.

(** X15. [computer_move] for Black or White always returns without
    leaving the array, and what it plays is a move its search generated that
    does not capture a king, or nothing: it leaves the board as it is when
    the search recorded no move, which is the case when no move is generated
    and when the first move generated captures a king. *)
Theorem computer_move_plays_a_generated_move (st : ChessState) (color : Z) :
  color = BLACK \/ color = WHITE ->
  exists st1,
    computer_move st color = Some st1 /\
    (st1 = search_config st \/
     exists si di tp,
       In (si, di, tp) (gen_moves (board st) (enp st) color) /\
       get_piece_type tp <> KING /\
       make_move (set_best (search_config st) si di) si di = Some st1) /\
    (gen_moves (board st) (enp st) color = [] -> st1 = search_config st) /\
    (forall m ms,
       gen_moves (board st) (enp st) color = m :: ms ->
       captures_king m = true ->
       st1 = search_config st).
Proof.
  intros Hc.
  destruct (computer_move_cases st color Hc) as (st1 & Hcm & _ & Cases).
  exists st1. split; [exact Hcm|].
  assert (forall ms, gen_moves (board st) (enp st) color = ms ->
            outcome_best (node_outcome (search_config st) color) =
            outcome_best (search_moves (reply_score (search_config st) color)
                            (stack_depth (search_config st) =? 0)
                            (king_capture_score (search_config st))
                            ms MIN_SCORE None)) as Hno
    by (by intros ms <-).
  split; [|split].
  - destruct Cases as [[_ ->]|([[si di] tp] & Hin & Hk & _ & Hmk)]; [by left|].
    right. exists si, di, tp. cbn [fst snd] in *.
    split; [exact Hin|]. split; [|exact Hmk].
    unfold captures_king in Hk. cbn [snd] in Hk. by apply Z.eqb_neq.
  - intros E. destruct Cases as [[_ ->]|(m & Hin & _)]; [done|].
    rewrite E in Hin. done.
  - intros m ms E K.
    destruct Cases as [[_ ->]|(m' & _ & _ & Hb & _)]; [done|].
    rewrite (Hno _ E) in Hb. cbn [search_moves] in Hb. rewrite K in Hb.
    discriminate Hb.
Qed.

Lemma computer_move_plays_a_generated_move_witness :
  exists st1,
    computer_move rook_takes_king WHITE = Some st1 /\
    (forall m ms,
       gen_moves (board rook_takes_king) (enp rook_takes_king) WHITE = m :: ms ->
       captures_king m = true ->
       st1 = search_config rook_takes_king).
Proof.
  destruct (computer_move_plays_a_generated_move rook_takes_king WHITE)
    as (st1 & H & _ & _ & F).
  - right. reflexivity.
  - exists st1. split; [exact H|exact F].
Defined.

(** X16. [computer_move] for Black or White keeps a well-formed board well
    formed: 128 cells, frontier markers off the board, and on it empty
    squares and pieces of type 1..6 only. *)
Theorem computer_move_keeps_board_well_formed (st : ChessState) (color : Z) :
  color = BLACK \/ color = WHITE ->
  wf_board (board st) ->
  exists st1, computer_move st color = Some st1 /\ wf_board (board st1).
Proof.
  intros Hc W.
  destruct (computer_move_cases st color Hc) as (st1 & Hcm & HW & _).
  exists st1. split; [exact Hcm|by apply HW].
Qed.

Lemma wf_board_rook_takes_king : wf_board (board rook_takes_king).
Proof. apply wf_board_checked; vm_compute; reflexivity. Qed.

Lemma computer_move_keeps_board_well_formed_witness :
  exists st1, computer_move rook_takes_king WHITE = Some st1 /\ wf_board (board st1).
Proof.
  apply (computer_move_keeps_board_well_formed rook_takes_king WHITE).
  - right. reflexivity.
  - exact wf_board_rook_takes_king.
Defined.

(** ** The accesses of [play] to its tables *)

(** X17. [play] indexes its tables inside their bounds: the type of the
    contents of a target, which indexes the seven [piece_scores], is between
    0 and 6 for every move of a search or of a validating pass, whatever the
    board and the colour; the index into the 24 [displacement]s is between 0
    and 23 for every direction of every piece, so the reset of line 329 never
    applies; and the target is a square of the board when it is read. *)
Theorem play_indexes_its_tables_in_bounds (through : bool) (b : list Z)
    (ep cc : Z) :
  (forall m, In m (moves through b ep cc) ->
     0 <= get_piece_type (snd m) <= 6 /\ on_board (snd (fst m)) = true) /\
  (forall p mo mc sl md di,
     movement cc p = Some (mo, mc, sl) ->
     0 <= md < mc ->
     0 <= mo + md < 24 /\
     next_square mo md di = di + entry displacement (mo + md)).
Proof.
  split.
  - intros m Hm. apply moves_valid in Hm as (mo & mc & sl & _ & Hoff & Hv & Hs).
    rewrite off_board_on_board in Hoff. apply negb_false_iff in Hoff.
    split; [|exact Hoff]. rewrite Hs.
    unfold get_piece_type, PIECE_MASK.
    assert (0 <= Z.land (cell b (snd (fst m))) 7)
      by (apply Z.land_nonneg; right; lia).
    split; [done|].
    destruct (reaches_valid_move_target _ _ _ _ _ _ Hv) as [E|[_ E]]; [|exact E].
    unfold PIECE_FULL_MASK, EMPTY in E.
    assert (Z.land (Z.land (cell b (snd (fst m))) 15) 7 = 0) as Z0 by (by rewrite E).
    rewrite <- Z.land_assoc in Z0. change (Z.land 15 7) with 7 in Z0. lia.
  - intros p mo mc sl md di Hmv Hmd.
    apply movement_cases in Hmv. cbn [In] in Hmv.
    assert (0 <= mo + md < 24) as R
      by (repeat (destruct Hmv as [Hmv|Hmv]; [inversion Hmv; lia|]); done).
    split; [exact R|]. unfold next_square.
    destruct (24 <=? mo + md) eqn:E; [lia|reflexivity].
Qed.

Lemma play_indexes_its_tables_in_bounds_witness :
  0 <= 0 + 1 < 24 /\
  next_square 0 1 0x71 = 0x71 + entry displacement (0 + 1).
Proof.
  destruct (play_indexes_its_tables_in_bounds false (board initial_state) 0 WHITE)
    as [_ H].
  apply (H (cell (board initial_state) 0x71) 0 8 false 1 0x71).
  - reflexivity.
  - lia.
Defined.

(** ** The loop of [run_game] *)

(** X18. An iteration of the loop of [run_game] that does not quit never
    takes the branch that rejects the move: [play_validate] returns 0, 78 or
    -127, none of which is below [ILLEGAL_MOVE_SCORE], so [make_move] is run
    on the two squares typed, whatever they are, and the computer replies. *)
Theorem run_game_never_rejects (st : ChessState) (k1 k2 k3 k4 : Z) :
  run_game_turn st k1 k2 k3 k4 =
    (if toupper k1 mod 256 =? 81 then Some Exited
     else
       st1 ← make_move (validate_config st) (key_to_coord k1 k2) (key_to_coord k3 k4);
       st2 ← computer_move st1 BLACK;
       Some (Moved st2)) /\
  forall st', run_game_turn st k1 k2 k3 k4 <> Some (Rejected st').
Proof.
  assert (run_game_turn st k1 k2 k3 k4 =
    (if toupper k1 mod 256 =? 81 then Some Exited
     else
       st1 ← make_move (validate_config st) (key_to_coord k1 k2) (key_to_coord k3 k4);
       st2 ← computer_move st1 BLACK;
       Some (Moved st2))) as E.
  { unfold run_game_turn. destruct (toupper k1 mod 256 =? 81); [reflexivity|].
    rewrite play_validate_score. cbn [mbind option_bind].
    change (Z.land k1 15 + 127 - Z.shiftl (read_key k2) 4) with (key_to_coord k1 k2).
    change (read_key k3 + 127 - Z.shiftl (read_key k4) 4) with (key_to_coord k3 k4).
    destruct (scan_moves_values KING_CAPTURE_SCORE (key_to_coord k1 k2)
                (key_to_coord k3 k4)
                (pass_moves (board st) (enp st) WHITE)) as [S|[S|S]];
      rewrite S; reflexivity. }
  split; [exact E|].
  intros st'. rewrite E.
  destruct (toupper k1 mod 256 =? 81); [discriminate|].
  destruct (make_move _ _ _) as [st1|]; [|discriminate]. cbn [mbind option_bind].
  destruct (computer_move st1 BLACK); discriminate.
Qed.

Lemma key_to_coord_in_array (l d : Z) :
  in_array (key_to_coord l d) =
  negb ((9 <=? Z.land d 15) ||
        ((Z.land d 15 =? 8) && (Z.land l 15 =? 0)) ||
        ((Z.land d 15 =? 0) && (1 <=? Z.land l 15))).
Proof.
  rewrite key_to_coord_value. unfold in_array, BOARD_SIZE.
  pose proof (land_15_range l). pose proof (land_15_range d).
  set (a := Z.land l 15) in *. set (c := Z.land d 15) in *. clearbody a c.
  destruct (0 <=? a + 127 - 16 * c) eqn:A, (a + 127 - 16 * c <? 128) eqn:B,
    (9 <=? c) eqn:C, (c =? 8) eqn:D, (a =? 0) eqn:F, (c =? 0) eqn:G,
    (1 <=? a) eqn:I; cbn; try reflexivity; lia.
Qed.

(** X19. When a rank typed has low four bits above 8 (the digit 9, for
    one), or of 0 with a file whose low bits are not 0 (as in D0), or the
    low bits 8 with a file of low bits 0, the iteration of [run_game] reaches
    [make_move] with a square outside the 128 cells, which it reads without
    any check. *)
Theorem run_game_reads_outside_the_board (st : ChessState) (k1 k2 k3 k4 : Z) :
  toupper k1 mod 256 <> 81 ->
  in_array (key_to_coord k1 k2) = false \/ in_array (key_to_coord k3 k4) = false ->
  (9 <= Z.land k2 15 -> in_array (key_to_coord k1 k2) = false) /\
  (Z.land k2 15 = 0 -> 1 <= Z.land k1 15 -> in_array (key_to_coord k1 k2) = false) /\
  run_game_turn st k1 k2 k3 k4 = None.
Proof.
  intros Hq Hout.
  split; [|split].
  - intros H. rewrite key_to_coord_in_array.
    destruct (9 <=? Z.land k2 15) eqn:E; [reflexivity|lia].
  - intros H0 H1. rewrite key_to_coord_in_array, H0.
    destruct (1 <=? Z.land k1 15) eqn:E; [reflexivity|lia].
  - unfold run_game_turn. destruct (toupper k1 mod 256 =? 81) eqn:Q; [lia|].
    rewrite play_validate_score. cbn [mbind option_bind].
    change (Z.land k1 15 + 127 - Z.shiftl (read_key k2) 4) with (key_to_coord k1 k2).
    change (read_key k3 + 127 - Z.shiftl (read_key k4) 4) with (key_to_coord k3 k4).
    assert (make_move (validate_config st) (key_to_coord k1 k2) (key_to_coord k3 k4)
            = None) as M.
    { unfold make_move, load.
      destruct (in_array (key_to_coord k1 k2)); [|reflexivity].
      cbn [mbind option_bind].
      destruct Hout as [Hout|Hout]; [discriminate|]. by rewrite Hout. }
    destruct (scan_moves_values KING_CAPTURE_SCORE (key_to_coord k1 k2)
                (key_to_coord k3 k4)
                (pass_moves (board st) (enp st) WHITE)) as [S|[S|S]];
      rewrite S; cbn; rewrite M; reflexivity.
Qed.

Lemma run_game_reads_outside_the_board_witness :
  run_game_turn initial_state 68 57 68 52 = None.
Proof.
  apply (run_game_reads_outside_the_board initial_state 68 57 68 52).
  - vm_compute. discriminate.
  - left. reflexivity.
Defined.

(** ** [enp = 0] and the square a8 *)

Lemma pawn_bits (p : Z) :
  Z.land p PIECE_FULL_MASK = 1 ->
  get_piece_type p = PAWN /\ Z.land p COLOR_MASK = 0.
Proof.
  unfold get_piece_type, PIECE_FULL_MASK, PIECE_MASK, COLOR_MASK. intros H.
  replace (Z.land p 7) with (Z.land (Z.land p 15) 7) by (by rewrite <- Z.land_assoc).
  replace (Z.land p 8) with (Z.land (Z.land p 15) 8) by (by rewrite <- Z.land_assoc).
  by rewrite H.
Qed.

(** X20. [enp = 0], the value that stands for no en passant target, is
    also the square a8 (0x00): with [enp = 0], a black pawn on b7 (0x11) and
    a8 empty, the search generates the diagonal move b7-a8 onto the empty
    square, and [make_move] plays it as an en passant capture: it empties a7
    (0x10), whatever stands there, and leaves a black queen on a8. *)
Theorem no_target_is_square_a8 (st : ChessState) :
  length (board st) = 128%nat ->
  enp st = 0 ->
  Z.land (cell (board st) 0x11) PIECE_FULL_MASK = 1 ->
  cell (board st) 0x00 = EMPTY ->
  In (0x11, 0x00, EMPTY) (gen_moves (board st) (enp st) BLACK) /\
  exists st',
    make_move st 0x11 0x00 = Some st' /\
    cell (board st') 0x10 = EMPTY /\
    cell (board st') 0x00 = QUEEN /\
    cell (board st') 0x11 = EMPTY /\
    forall i, i <> 0x00 -> i <> 0x10 -> i <> 0x11 -> 0 <= i ->
      cell (board st') i = cell (board st) i.
Proof.
  intros Hlen He Hp Ha. destruct (pawn_bits _ Hp) as [Ht Hcol]. split.
  - unfold gen_moves, moves. apply in_flat_map. exists 0x11.
    split; [apply in_zrange; lia|].
    unfold piece_moves. change (negb (Z.land 17 136 =? 0)) with false. cbv iota.
    assert (movement BLACK (cell (board st) 0x11) = Some (16, 4, false)) as ->
      by (unfold movement, BLACK; rewrite Z.lxor_0_r, Hp; reflexivity).
    apply in_flat_map. exists 0. split; [apply in_zrange; cbn; lia|].
    apply in_map_iff. exists (0x00, EMPTY). split; [reflexivity|].
    unfold ray_fuel. cbn [ray_targets].
    change (next_square 16 0 17) with 0.
    change (off_board 0) with false. cbv iota.
    unfold reaches_valid_move. rewrite Ha, He. cbn. by left.
  - unfold make_move. make_move_steps. rewrite Ht, Ha.
    change (PAWN =? PAWN) with true. cbv iota.
    unfold pawn_effects. rewrite He, Hcol. cbn -[store_at set_cell].
    make_move_steps. cbn -[set_cell].
    eexists. split; [reflexivity|]. cbn [board set_enp set_board].
    unfold EMPTY, QUEEN.
    change (if 0 - 17 >? 0 then 0 - 16 else 0 + 16) with 16.
    change (Z.lor 0 4) with 4.
    split; [read_cells; reflexivity|].
    split; [read_cells; reflexivity|].
    split; [read_cells; reflexivity|].
    intros i H0 H1 H2 Hi. read_cells. reflexivity.
Qed.

Lemma no_target_is_square_a8_witness :
  In (0x11, 0x00, EMPTY) (gen_moves (board pawn_on_b7) (enp pawn_on_b7) BLACK) /\
  exists st',
    make_move pawn_on_b7 0x11 0x00 = Some st' /\
    cell (board st') 0x10 = EMPTY /\
    cell (board st') 0x00 = QUEEN /\
    cell (board st') 0x11 = EMPTY /\
    forall i, i <> 0x00 -> i <> 0x10 -> i <> 0x11 -> 0 <= i ->
      cell (board st') i = cell (board pawn_on_b7) i.
Proof. apply (no_target_is_square_a8 pawn_on_b7); reflexivity. Defined.

(** ** [is_en_passant] *)

(** X21. For a diagonal displacement (15, 17, -15 or -17) between two
    squares of the board, [is_en_passant] returns the square of the board
    beside the origin, in the row of the origin and the column of the target;
    for a straight pawn displacement (16, -16, 32 or -32) it returns 0, which
    is also the number of the square a8.  It does not look at [to]. *)
Theorem is_en_passant_square (from to diff : Z) :
  (on_board from = true -> on_board (from + diff) = true ->
   In diff [15; 17; -15; -17] ->
   on_board (is_en_passant from to diff) = true /\
   Z.shiftr (is_en_passant from to diff) 4 = Z.shiftr from 4 /\
   Z.land (is_en_passant from to diff) 7 = Z.land (from + diff) 7) /\
  (In diff [16; -16; 32; -32] -> is_en_passant from to diff = 0).
Proof.
  split.
  - intros Hf Ht Hd. pose proof (on_board_range _ Hf) as R.
    assert (forallb (fun i => forallb (fun d =>
              implb (on_board i && on_board (i + d))
                    (on_board (is_en_passant i 0 d) &&
                     (Z.shiftr (is_en_passant i 0 d) 4 =? Z.shiftr i 4) &&
                     (Z.land (is_en_passant i 0 d) 7 =? Z.land (i + d) 7)))
              [15; 17; -15; -17]) (zrange 128 0) = true) as T
      by (vm_compute; reflexivity).
    pose proof (forallb_zrange _ _ _ T from ltac:(lia)) as P. cbv beta in P.
    rewrite forallb_forall in P. specialize (P diff Hd).
    rewrite Hf, Ht in P. cbn [andb implb] in P.
    change (is_en_passant from 0 diff) with (is_en_passant from to diff) in P.
    apply andb_true_iff in P as [P P3]. apply andb_true_iff in P as [P1 P2].
    apply Z.eqb_eq in P2, P3. done.
  - cbn [In]. intros [<-|[<-|[<-|[<-|[]]]]]; reflexivity.
Qed.

Lemma is_en_passant_square_witness :
  on_board (is_en_passant 0x54 0x43 (-17)) = true /\
  Z.shiftr (is_en_passant 0x54 0x43 (-17)) 4 = Z.shiftr 0x54 4 /\
  Z.land (is_en_passant 0x54 0x43 (-17)) 7 = Z.land (0x54 + -17) 7.
Proof.
  destruct (is_en_passant_square 0x54 0x43 (-17)) as [H _].
  apply H; [reflexivity|reflexivity|cbn; tauto].
Defined.

Lemma get_random_byte_cycle_witness :
  count_occ Z.eq_dec (random_bytes 256 zero_state) 7 = 1%nat.
Proof.
  destruct (get_random_byte_cycle zero_state) as (_ & _ & _ & H).
  apply H. lia.
Defined.

Lemma play_changes_the_recorded_move_only_witness :
  exists st' score rv f t,
    play (validate_config initial_state) 0x71 0x52 WHITE = Some (st', score, rv) /\
    st' = set_best (validate_config initial_state) f t /\
    (validating (validate_config initial_state) = true \/
     0 < stack_depth (validate_config initial_state) ->
     st' = validate_config initial_state).
Proof.
  exact (play_changes_the_recorded_move_only (validate_config initial_state)
           0x71 0x52 WHITE).
Defined.

Lemma play_reads_five_fields_witness :
  exists st1' st2' score rv,
    play (search_config lone_knight) (-1) (-1) BLACK = Some (st1', score, rv) /\
    play (set_rand_seed (search_config lone_knight) 42) 0x00 0x12 BLACK =
      Some (st2', score, rv).
Proof.
  apply (play_reads_five_fields (search_config lone_knight)
           (set_rand_seed (search_config lone_knight) 42) (-1) (-1) 0x00 0x12 BLACK);
    try reflexivity.
  left. reflexivity.
Defined.

Lemma search_moves_follow_the_piece_witness :
  exists d k,
    1 <= k <= 8 /\
    0x22 = 0x01 + k * d /\
    (forall j, 1 <= j < k ->
       on_board (0x01 + j * d) = true /\
       Z.land (cell (board initial_state) (0x01 + j * d)) PIECE_FULL_MASK = EMPTY) /\
    ((get_piece_type (cell (board initial_state) 0x01) = PAWN /\ k = 1 /\
      In d (if BLACK =? BLACK then [-17; -15; -16; -32] else [15; 17; 16; 32])) \/
     (get_piece_type (cell (board initial_state) 0x01) = ROOK /\ In d [-16; 16; -1; 1]) \/
     (get_piece_type (cell (board initial_state) 0x01) = BISHOP /\
      In d [15; 17; -15; -17]) \/
     (get_piece_type (cell (board initial_state) 0x01) = QUEEN /\
      In d [-16; 16; -1; 1; 15; 17; -15; -17]) \/
     (get_piece_type (cell (board initial_state) 0x01) = KNIGHT /\ k = 1 /\
      In d [-33; -31; -18; -14; 14; 18; 31; 33]) \/
     (get_piece_type (cell (board initial_state) 0x01) = KING /\ k = 1 /\
      In d [-16; 16; -1; 1; 15; 17; -15; -17])).
Proof.
  apply (search_moves_follow_the_piece (board initial_state) (enp initial_state)
           BLACK 0x01 0x22 0).
  - left. reflexivity.
  - vm_compute. tauto.
Defined.

Lemma run_game_never_rejects_witness :
  run_game_turn initial_state 68 50 68 52 <> Some (Rejected initial_state).
Proof. apply (run_game_never_rejects initial_state 68 50 68 52). Defined.
